(** * Order map context of a single partition

    A shallow embedding of
    [secretflow/ml/boost/sgb_v/core/split_tree_trainer/order_map_context.py]:
    the quantile cutter [_qcut] with its nested binary search
    [upper_bound_bin], the aggregator [build_maps] and the accessors of
    [OrderMapContext].

    Modelling choices.
    - Sample values are integers ([Z]), as in an integer column or in a
      float column that holds whole numbers.  A split point is a [pyfloat]:
      a finite double, given by its value, or [+inf].  [float(v)] rounds
      an integer to the nearest double, ties to even ([round_double]); it
      is the identity up to [2^53] in magnitude.  The samples of a numpy
      integer array have at most 64 bits, far from the range where the
      conversion would overflow.
    - Python integers are [Z]; [math.ceil(a / b)] is the exact ceiling of
      the quotient (the double division of the source is exact for the
      array lengths that fit in memory).
    - A numpy array lives in a heap and is referred to by its location, so
      that what [build_maps] writes and what it only reads is visible.  A
      2-D array is stored by columns together with its row count, which
      keeps the shape of arrays with zero rows.
    - [np.sort] is stdpp's [merge_sort]; the loops whose trip count is
      not the length of a list ([while] in [upper_bound_bin] and in
      [build_maps]) are defined by well-founded recursion on the quantity
      that decreases.
    - An exception leaves the state as it is at the raising statement. *)

From stdpp Require Import base numbers list sorting gmap.
From Equations Require Import Equations.

Local Open Scope Z_scope.

(** ** Python values and exceptions *)

Inductive exn :=
| AssertionError
| IndexError
| ZeroDivisionError
| TypeError
| AttributeError.

Inductive outcome (A : Type) :=
| Returned (a : A)
| Raised (e : exn).
Arguments Returned {A} a.
Arguments Raised {A} e.

Definition obind {A B} (o : outcome A) (k : A → outcome B) : outcome B :=
  match o with
  | Returned a => k a
  | Raised e => Raised e
  end.

Notation "'try' x <- c1 ; c2" := (obind c1 (fun x => c2))
  (at level 60, x name, c1 at next level, right associativity).

(** [np.vectorize(f)(l)]: [f] on every element in turn, raising when [f]
    does. *)
Fixpoint vectorize {A B} (f : A → outcome B) (l : list A) : outcome (list B) :=
  match l with
  | [] => Returned []
  | a :: l' => try b <- f a; try bs <- vectorize f l'; Returned (b :: bs)
  end.

Inductive pyfloat :=
| Finite (z : Z)
| PosInf.

Global Instance pyfloat_eq_dec : EqDecision pyfloat.
Proof. solve_decision. Defined.

(** The 53-bit significand of the double nearest to [a >= 2^53], [e]
    being the number of low bits that do not fit: the quotient by [2^e],
    rounded to nearest, ties to even. *)
Definition round_at (e a : Z) : Z :=
  let q := a `div` 2 ^ e in
  let r := a `mod` 2 ^ e in
  let half := 2 ^ (e - 1) in
  if decide (r < half) then q
  else if decide (half < r) then q + 1
  else if Z.even q then q else q + 1.

(** The value of [float(z)] for an integer [z]. *)
Definition round_double (z : Z) : Z :=
  let a := Z.abs z in
  if decide (a < 2 ^ 53) then z
  else
    let e := Z.log2 a - 52 in
    Z.sgn z * (round_at e a * 2 ^ e).

(** [float(z)] *)
Definition float (z : Z) : pyfloat := Finite (round_double z).

(** [float(z) == z]: the integer is a double. *)
Definition representable (z : Z) : Prop := round_double z = z.

Global Instance representable_dec z : Decision (representable z).
Proof. unfold representable. apply _. Defined.

(** [l[i]] with Python's negative indices; [None] stands for IndexError. *)
Definition py_index {A} (l : list A) (i : Z) : option A :=
  let n := Z.of_nat (length l) in
  if decide (0 <= i) then l !! Z.to_nat i
  else if decide (- n <= i) then l !! Z.to_nat (n + i)
  else None.

(** [math.ceil(a / b)]; [None] stands for ZeroDivisionError. *)
Definition ceil_div (a b : Z) : option Z :=
  if decide (b = 0) then None else Some (- ((- a) `div` b)).

(** [x > v] between a sample and a split point ([x == v] is
    [Finite x = v]). *)
Definition gt_float (x : Z) (v : pyfloat) : Prop :=
  match v with
  | Finite z => z < x
  | PosInf => False
  end.

Global Instance gt_float_dec x v : Decision (gt_float x v).
Proof. destruct v; simpl; apply _. Defined.

(** ** The equal-frequency walk of [_qcut] (lines 38-60) *)

Module Walk.

(** The local variables the [for] loop reads and writes. *)
Record locals := Locals {
  value_category : list Z;
  last_value : option Z;
  split_points : list Z;
  expected_bin_count : Z;
  current_bin_count : Z;
  remained_count : Z
}.

Inductive flow :=
| Continue (st : locals)
| Break (st : locals)
| Throw (e : exn).

(** One iteration of [for v in sorted_x]. *)
Definition body (buckets : Z) (st : locals) (v : Z) : flow :=
  if decide (Some v ≠ last_value st) then
    let vc :=
      if decide (Z.of_nat (length (value_category st)) <= buckets)
      then value_category st ++ [v] else value_category st in
    if decide (current_bin_count st >= expected_bin_count st) then
      let sp := split_points st ++ [v] in
      if decide (Z.of_nat (length sp) = buckets - 1) then
        Break (Locals vc (last_value st) sp (expected_bin_count st)
                 (current_bin_count st) (remained_count st))
      else
        let rc := remained_count st - current_bin_count st in
        match ceil_div rc (buckets - Z.of_nat (length sp)) with
        | None => Throw ZeroDivisionError
        | Some e => Continue (Locals vc (Some v) sp e (0 + 1) rc)
        end
    else
      Continue (Locals vc (Some v) (split_points st) (expected_bin_count st)
                  (current_bin_count st + 1) (remained_count st))
  else
    Continue (Locals (value_category st) (last_value st) (split_points st)
                (expected_bin_count st) (current_bin_count st + 1)
                (remained_count st)).

Fixpoint run (buckets : Z) (st : locals) (sorted_x : list Z) : exn + locals :=
  match sorted_x with
  | [] => inr st
  | v :: rest =>
      match body buckets st v with
      | Continue st' => run buckets st' rest
      | Break st' => inr st'
      | Throw e => inl e
      end
  end.

End Walk.

(** ** The binary search [upper_bound_bin] (lines 72-85) *)

Equations? upper_bound_loop (split_points : list pyfloat) (x : Z)
    (count pos : Z) : outcome Z by wf (Z.to_nat count) lt :=
  upper_bound_loop split_points x count pos with decide (count > 0) := {
    | right _ => Returned pos
    | left _ with py_index split_points (pos + count `div` 2) := {
        | None => Raised IndexError
        | Some v with decide (Finite x = v) := {
            | left _ => Returned (pos + count `div` 2 + 1)
            | right _ with decide (gt_float x v) := {
                | left _ =>
                    upper_bound_loop split_points x
                      (count - (count `div` 2 + 1)) (pos + count `div` 2 + 1)
                | right _ =>
                    upper_bound_loop split_points x (count `div` 2) pos } } } }.
Proof.
  all: assert (0 <= count `div` 2 < count)
    by (split; [apply Z.div_pos | apply Z.div_lt]; lia).
  all: lia.
Qed.

Definition upper_bound_bin (split_points : list pyfloat) (x : Z) : outcome Z :=
  upper_bound_loop split_points x (Z.of_nat (length split_points)) 0.

(** ** Arrays, the context object and the machine state *)

(** A 2-D numpy array, stored by columns: [x[:, f]] is [columns !! f] and
    [x.shape] is [(nrows, length columns)]. *)
Record ndarray := NdArray {
  nrows : nat;
  columns : list (list Z)
}.

Definition shape (a : ndarray) : Z * Z :=
  (Z.of_nat (nrows a), Z.of_nat (length (columns a))).

(** Every column of a well-formed array has [nrows] cells. *)
Definition wf_ndarray (a : ndarray) : Prop :=
  Forall (λ col, length col = nrows a) (columns a).

Definition cell (a : ndarray) (i f : nat) : option Z :=
  col ← columns a !! f; col !! i.

(** [np.zeros((r, c), dtype=np.int8)] *)
Definition zeros (r c : nat) : ndarray :=
  NdArray r (replicate c (replicate r 0)).

(** Storing a Python integer in an [np.int8] cell keeps its low eight bits,
    read as a two's complement number. *)
Definition int8 (z : Z) : Z := (z + 128) `mod` 256 - 128.

(** [a[:, f] = col] *)
Definition set_column (a : ndarray) (f : nat) (col : list Z) : ndarray :=
  NdArray (nrows a) (<[f := col]> (columns a)).

Abbreviation loc := positive (only parsing).

(** The fields of [OrderMapContext].  [None] is Python's [None], except
    for [order_map_shape], which [__init__] does not create: there [None]
    says that the attribute does not exist yet. *)
Record OrderMapContext := Ctx {
  order_map : option loc;
  split_points : option (list (list pyfloat));
  feature_buckets : option (list Z);
  features : option Z;
  buckets : option Z;
  order_map_shape : option (Z * Z)
}.

(** [self.order_map_shape = s] *)
Definition set_order_map_shape (c : OrderMapContext) (s : Z * Z)
    : OrderMapContext :=
  Ctx (order_map c) (split_points c) (feature_buckets c) (features c)
    (buckets c) (Some s).

(** [OrderMapContext.__init__] *)
Definition __init__ : OrderMapContext := Ctx None None None None None None.

(** A context of which only [buckets] is set, all that [_qcut] reads. *)
Definition ctx_with_buckets (b : Z) : OrderMapContext :=
  Ctx None None None None (Some b) None.

Record machine := Machine {
  heap : gmap positive ndarray;
  self : OrderMapContext
}.

(** Statements: they read and write the machine and return or raise. *)
Definition M (A : Type) : Type := machine → outcome A * machine.

Definition ret {A} (a : A) : M A := λ m, (Returned a, m).
Definition raise {A} (e : exn) : M A := λ m, (Raised e, m).
Definition lift {A} (o : outcome A) : M A := λ m, (o, m).
Definition bind {A B} (c : M A) (k : A → M B) : M B :=
  λ m, match c m with
       | (Returned a, m') => k a m'
       | (Raised e, m') => (Raised e, m')
       end.

Notation "'do' x <- c1 ; c2" := (bind c1 (fun x => c2))
  (at level 60, x name, c1 at next level, right associativity).
Notation "'do' ' pat <- c1 ; c2" := (bind c1 (fun x => match x with pat => c2 end))
  (at level 60, pat pattern, c1 at next level, right associativity).

Definition get_self : M OrderMapContext := λ m, (Returned (self m), m).
Definition put_self (c : OrderMapContext) : M unit :=
  λ m, (Returned (), Machine (heap m) c).

(** Reading through a reference; a location that holds no array behaves
    like an object without the array attributes. *)
Definition read_array (l : loc) : M ndarray :=
  λ m, match heap m !! l with
       | Some a => (Returned a, m)
       | None => (Raised AttributeError, m)
       end.

Definition write_array (l : loc) (a : ndarray) : M unit :=
  λ m, (Returned (), Machine (<[l := a]> (heap m)) (self m)).

Definition alloc (a : ndarray) : M loc :=
  λ m, let l := fresh (dom (heap m)) in
       (Returned l, Machine (<[l := a]> (heap m)) (self m)).

Fixpoint for_each {A} (body : A → M unit) (l : list A) : M unit :=
  match l with
  | [] => ret ()
  | a :: l' => do _ <- body a; for_each body l'
  end.

(** ** [_qcut] (lines 33-89) *)

Definition _qcut (self : OrderMapContext) (x : list Z)
    : outcome (list Z * list pyfloat) :=
  let sorted_x := merge_sort Z.le x in
  let remained_count := Z.of_nat (length sorted_x) in
  if decide (remained_count > 0) then
    match buckets self with
    | None => Raised TypeError
    | Some b =>
        match ceil_div remained_count b with
        | None => Raised ZeroDivisionError
        | Some expected_bin_count =>
            match Walk.run b (Walk.Locals [] None [] expected_bin_count 0
                                remained_count) sorted_x with
            | inl e => Raised e
            | inr st =>
                try split_points <-
                  (if decide (Z.of_nat (length (Walk.value_category st)) <= b)
                   then Returned (drop 1 (Walk.value_category st))
                   else
                     match py_index (Walk.split_points st) (-1),
                           py_index sorted_x (-1) with
                     | Some l, Some mx =>
                         if decide (l ≠ mx)
                         then Returned (Walk.split_points st ++ [mx])
                         else Returned (Walk.split_points st)
                     | _, _ => Raised IndexError
                     end);
                let split_points := map float split_points in
                try bins <- vectorize (upper_bound_bin split_points) x;
                Returned (bins, split_points)
            end
        end
    end
  else Raised AssertionError.

(** ** [build_maps] (lines 91-121) *)

(** [while total_buckets <= self.buckets: ...] (lines 115-117) *)
Equations? pad_loop (buckets total_buckets : Z) (split_point : list pyfloat)
    : Z * list pyfloat by wf (Z.to_nat (buckets + 1 - total_buckets)) lt :=
  pad_loop buckets total_buckets split_point
    with decide (total_buckets <= buckets) := {
    | left _ => pad_loop buckets (total_buckets + 1) (split_point ++ [PosInf])
    | right _ => (total_buckets, split_point) }.
Proof. lia. Qed.

(** The body of [for f in range(x.shape[1])] (lines 112-119). *)
Definition build_feature (x : loc) (f : nat) : M unit :=
  do arr <- read_array x;
  do col <- lift (match columns arr !! f with
                  | Some col => Returned col
                  | None => Raised IndexError
                  end);
  do c <- get_self;
  do '(bins, split_point) <- lift (_qcut c col);
  do om <- lift (match order_map c with
                 | Some om => Returned om
                 | None => Raised TypeError
                 end);
  do omarr <- read_array om;
  do _ <- write_array om (set_column omarr f (map int8 bins));
  do b <- lift (match buckets c with
                | Some b => Returned b
                | None => Raised TypeError
                end);
  let '(total_buckets, split_point) :=
    pad_loop b (Z.of_nat (length split_point)) split_point in
  do fb <- lift (match feature_buckets c with
                 | Some fb => Returned fb
                 | None => Raised AttributeError
                 end);
  do sps <- lift (match split_points c with
                  | Some sps => Returned sps
                  | None => Raised AttributeError
                  end);
  put_self (Ctx (order_map c) (Some (sps ++ [split_point]))
              (Some (fb ++ [total_buckets])) (features c) (buckets c)
              (order_map_shape c)).

Definition build_maps (x : loc) (buckets : Z) : M unit :=
  do arr <- read_array x;
  do om <- alloc (zeros (nrows arr) (length (columns arr)));
  do c <- get_self;
  do _ <- put_self (Ctx (Some om) (Some []) (Some [])
                      (Some (Z.of_nat (length (columns arr)))) (Some buckets)
                      (order_map_shape c));
  do _ <- for_each (build_feature x) (seq 0 (length (columns arr)));
  do c <- get_self;
  do omarr <- read_array om;
  put_self (set_order_map_shape c (shape omarr)).

(** ** Accessors (lines 123-139) *)

Definition get_order_map : M (option loc) :=
  do c <- get_self; ret (order_map c).

Definition get_features : M (option Z) :=
  do c <- get_self; ret (features c).

Definition get_feature_buckets : M (option (list Z)) :=
  do c <- get_self; ret (feature_buckets c).

Definition get_feature_bucket_at (index : Z) : M Z :=
  do c <- get_self;
  match feature_buckets c with
  | None => raise TypeError
  | Some fb =>
      match py_index fb index with
      | Some n => ret n
      | None => raise IndexError
      end
  end.

Definition get_split_points : M (option (list (list pyfloat))) :=
  do c <- get_self; ret (split_points c).

Definition get_order_map_shape : M (Z * Z) :=
  do c <- get_self;
  match order_map_shape c with
  | Some s => ret s
  | None => raise AttributeError
  end.

(** A fresh interpreter state holding one array [x] and a new context. *)
Definition boot (x : ndarray) : machine := Machine {[ 1%positive := x ]} __init__.

(** ** Vocabulary of the properties *)

(** The values of a sorted list with adjacent repetitions removed, the
    way the walk detects a new value ([v != last_value]). *)
Fixpoint uniq_from (last : option Z) (l : list Z) : list Z :=
  match l with
  | [] => []
  | v :: l' =>
      if decide (Some v ≠ last) then v :: uniq_from (Some v) l'
      else uniq_from (Some v) l'
  end.

Definition uniq (l : list Z) : list Z := uniq_from None l.

(** The distinct values of a column, ascending. *)
Definition distinct_values (x : list Z) : list Z :=
  merge_sort Z.le (remove_dups x).

(** [r] is the number of split points that are [<= x]: the points below
    index [r] are at most [x], the others are greater. *)
Definition upper_bound (l : list Z) (x r : Z) : Prop :=
  0 <= r <= Z.of_nat (length l) ∧
  ∀ (i : nat) z, l !! i = Some z → (Z.of_nat i < r ↔ z <= x).

(** [r] separates split points that are [<= x] from split points that
    are [>= x]: what the search finds when adjacent split points can be
    equal. *)
Definition search_bound (l : list Z) (x r : Z) : Prop :=
  0 <= r <= Z.of_nat (length l) ∧
  ∀ (i : nat) z, l !! i = Some z →
    (Z.of_nat i < r → z <= x) ∧ (r <= Z.of_nat i → x <= z).

(** * Lemmas *)

Section basics.

Lemma py_index_nonneg {A} (l : list A) (i : Z) :
  0 <= i → py_index l i = l !! Z.to_nat i.
Proof. intros. unfold py_index. by rewrite decide_True. Qed.

Lemma py_index_last {A} (l : list A) : py_index l (-1) = last l.
Proof.
  unfold py_index. rewrite decide_False by lia.
  destruct l as [|a l] using rev_ind.
  - by rewrite decide_False by (simpl; lia).
  - rewrite last_snoc, length_app. simpl.
    rewrite decide_True by lia.
    replace (Z.to_nat _) with (length l) by lia.
    by rewrite lookup_app_r, Nat.sub_diag by lia.
Qed.

Lemma ceil_div_Some a k :
  k ≠ 0 → ceil_div a k = Some (- ((- a) `div` k)).
Proof. intros. unfold ceil_div. by rewrite decide_False. Qed.

Lemma ceil_div_pos a k e :
  1 <= k → 1 <= a → ceil_div a k = Some e → 1 <= e.
Proof.
  intros Hk Ha. rewrite ceil_div_Some by lia. intros [= <-].
  assert ((- a) `div` k < 0); [|lia].
  apply Z.div_lt_upper_bound; lia.
Qed.

Lemma ceil_div_one a e : ceil_div a 1 = Some e → e = a.
Proof. rewrite ceil_div_Some by lia. rewrite Z.div_1_r. intros [= <-]. lia. Qed.

Lemma int8_small z : -128 <= z <= 127 → int8 z = z.
Proof. intros. unfold int8. rewrite Z.mod_small; lia. Qed.

End basics.

(** ** [float] on integers *)

Section rounding.

Lemma round_at_bounds e a :
  a `div` 2 ^ e <= round_at e a <= a `div` 2 ^ e + 1.
Proof. unfold round_at. repeat case_decide; try lia. destruct (Z.even _); lia. Qed.

Lemma round_at_mono e a a' :
  0 < e → a <= a' → round_at e a <= round_at e a'.
Proof.
  intros He Ha.
  assert (0 < 2 ^ e) as Hpow by (apply Z.pow_pos_nonneg; lia).
  pose proof (Z.div_le_mono a a' (2 ^ e) Hpow Ha) as Hq.
  pose proof (round_at_bounds e a). pose proof (round_at_bounds e a').
  destruct (decide (a `div` 2 ^ e = a' `div` 2 ^ e)) as [Heq|Hne]; [|lia].
  assert (a `mod` 2 ^ e <= a' `mod` 2 ^ e) as Hr.
  { pose proof (Z.div_mod a (2 ^ e) ltac:(lia)).
    pose proof (Z.div_mod a' (2 ^ e) ltac:(lia)). rewrite Heq in *. lia. }
  unfold round_at. rewrite Heq.
  repeat case_decide; try lia; destruct (Z.even _); lia.
Qed.

(** Up to [2^53] in magnitude the conversion is exact. *)
Lemma round_double_small z : Z.abs z <= 2 ^ 53 → round_double z = z.
Proof.
  intros Hz. unfold round_double. case_decide as Ha; [done|].
  assert (Z.abs z = 2 ^ 53) as Habs by lia. rewrite Habs.
  change (Z.log2 (2 ^ 53) - 52) with 1.
  change (round_at 1 (2 ^ 53) * 2 ^ 1) with (2 ^ 53).
  rewrite <-Habs. rewrite Z.mul_comm. apply Z.abs_sgn.
Qed.

(** The binade of a large magnitude and of its rounding. *)
Lemma round_large a :
  2 ^ 53 <= a →
  let e := Z.log2 a - 52 in
  1 <= e ∧ 2 ^ (52 + e) <= a < 2 ^ (53 + e) ∧
  2 ^ (52 + e) <= round_at e a * 2 ^ e <= 2 ^ (53 + e).
Proof.
  intros Ha. simpl.
  assert (53 <= Z.log2 a) as Hlog.
  { change 53 with (Z.log2 (2 ^ 53)). by apply Z.log2_le_mono. }
  set (e := Z.log2 a - 52).
  destruct (Z.log2_spec a ltac:(lia)) as [Hlo Hhi].
  replace (Z.log2 a) with (52 + e) in Hlo by lia.
  replace (Z.succ (Z.log2 a)) with (53 + e) in Hhi by lia.
  split; [lia|]. split; [lia|].
  assert (0 < 2 ^ e) as Hpow by (apply Z.pow_pos_nonneg; lia).
  assert (2 ^ (52 + e) = 2 ^ 52 * 2 ^ e) as H52 by (apply Z.pow_add_r; lia).
  assert (2 ^ (53 + e) = 2 ^ 53 * 2 ^ e) as H53 by (apply Z.pow_add_r; lia).
  pose proof (round_at_bounds e a) as [Hq1 Hq2].
  assert (2 ^ 52 <= a `div` 2 ^ e).
  { apply Z.div_le_lower_bound; lia. }
  assert (a `div` 2 ^ e < 2 ^ 53).
  { apply Z.div_lt_upper_bound; lia. }
  nia.
Qed.

Lemma round_double_nonneg_mono a a' :
  0 <= a → a <= a' → round_double a <= round_double a'.
Proof.
  intros H0 Ha. unfold round_double.
  rewrite !Z.abs_eq by lia.
  destruct (decide (a < 2 ^ 53)) as [Hs|Hl], (decide (a' < 2 ^ 53)) as [Hs'|Hl'];
    try lia.
  - destruct (round_large a' ltac:(lia)) as (He' & Hw' & Hr').
    rewrite Z.sgn_pos by lia.
    assert (2 ^ 53 <= 2 ^ (52 + (Z.log2 a' - 52)))
      by (apply Z.pow_le_mono_r; lia).
    lia.
  - destruct (round_large a ltac:(lia)) as (He & Hw & Hr).
    destruct (round_large a' ltac:(lia)) as (He' & Hw' & Hr').
    rewrite !Z.sgn_pos by lia.
    pose proof (Z.log2_le_mono a a' Ha) as Hlog.
    destruct (decide (Z.log2 a = Z.log2 a')) as [Heq|Hne].
    + rewrite <-Heq in *.
      assert (0 < 2 ^ (Z.log2 a - 52)) by (apply Z.pow_pos_nonneg; lia).
      pose proof (round_at_mono (Z.log2 a - 52) a a' ltac:(lia) Ha). nia.
    + assert (2 ^ (53 + (Z.log2 a - 52)) <= 2 ^ (52 + (Z.log2 a' - 52)))
        by (apply Z.pow_le_mono_r; lia).
      lia.
Qed.

Lemma round_double_opp z : round_double (- z) = - round_double z.
Proof.
  unfold round_double. rewrite Z.abs_opp, Z.sgn_opp.
  case_decide; lia.
Qed.

Lemma round_double_nonneg a : 0 <= a → 0 <= round_double a.
Proof.
  intros Ha. pose proof (round_double_nonneg_mono 0 a ltac:(lia) Ha) as H.
  by rewrite (round_double_small 0) in H.
Qed.

(** The conversion keeps the order, though not strictly. *)
Lemma round_double_mono z z' : z <= z' → round_double z <= round_double z'.
Proof.
  intros Hz. destruct (decide (0 <= z)) as [H0|H0].
  { by apply round_double_nonneg_mono. }
  destruct (decide (0 <= z')) as [H0'|H0'].
  - pose proof (round_double_nonneg (- z) ltac:(lia)) as Hn.
    rewrite round_double_opp in Hn.
    pose proof (round_double_nonneg z' H0'). lia.
  - pose proof (round_double_nonneg_mono (- z') (- z) ltac:(lia) ltac:(lia)) as Hm.
    rewrite !round_double_opp in Hm. lia.
Qed.

Lemma map_float (l : list Z) : map float l = map Finite (map round_double l).
Proof. by rewrite map_map. Qed.

Lemma float_representable (l : list Z) :
  Forall representable l → map float l = map Finite l.
Proof.
  induction 1 as [|z l Hz _ IH]; [done|]. simpl. unfold float at 1.
  by rewrite Hz, IH.
Qed.

Lemma rounded_sorted (l : list Z) :
  StronglySorted Z.lt l → StronglySorted Z.le (map round_double l).
Proof.
  induction 1 as [|z l Hl IH Hz]; simpl; constructor; [done|].
  apply Forall_fmap. eapply Forall_impl; [done|]. simpl.
  intros y Hy. apply round_double_mono. lia.
Qed.

Lemma representable_sub (l x : list Z) :
  (∀ v, v ∈ l → v ∈ x) → Forall representable x → Forall representable l.
Proof.
  intros Hin Hx. apply Forall_forall. intros v Hv.
  eapply Forall_forall in Hx; [done|]. by apply Hin.
Qed.

End rounding.

Section uniq.

Implicit Types l pre suf : list Z.

(** The value [v != last_value] is compared with after a prefix. *)
Definition last_after (o : option Z) pre : option Z :=
  match last pre with Some v => Some v | None => o end.

Lemma last_after_snoc o pre v : last_after o (pre ++ [v]) = Some v.
Proof. unfold last_after. by rewrite last_snoc. Qed.

Lemma uniq_from_app o pre suf :
  uniq_from o (pre ++ suf) = uniq_from o pre ++ uniq_from (last_after o pre) suf.
Proof.
  revert o. induction pre as [|v pre IH]; intros o; [done|].
  assert (last_after o (v :: pre) = last_after (Some v) pre) as ->.
  { unfold last_after. destruct pre as [|z pre]; [done|].
    change (last (v :: z :: pre)) with (last (z :: pre)).
    destruct (last (z :: pre)) eqn:E; [done|]. by apply last_None in E. }
  simpl. case_decide; simpl; by rewrite IH.
Qed.

Lemma uniq_snoc pre v :
  uniq (pre ++ [v]) =
    if decide (Some v ≠ last pre) then uniq pre ++ [v] else uniq pre.
Proof.
  unfold uniq. rewrite uniq_from_app. simpl.
  assert (last_after None pre = last pre) as ->.
  { unfold last_after. by destruct (last pre). }
  case_decide; [done|]. by rewrite app_nil_r.
Qed.

Lemma uniq_prefix pre suf : uniq pre `prefix_of` uniq (pre ++ suf).
Proof. unfold uniq. rewrite uniq_from_app. by eexists. Qed.

Lemma uniq_nil_inv l : uniq l = [] → l = [].
Proof. by destruct l. Qed.

Lemma elem_of_uniq_from o l v : v ∈ uniq_from o l → v ∈ l.
Proof.
  revert o. induction l as [|w l IH]; intros o; simpl; [done|].
  destruct (decide (Some w ≠ o)); rewrite ?elem_of_cons; intros; eauto.
  destruct_or!; eauto.
Qed.

Lemma elem_of_uniq_from_2 o l v : v ∈ l → v ∈ uniq_from o l ∨ o = Some v.
Proof.
  revert o. induction l as [|w l IH]; intros o; simpl; [by intros ?%elem_of_nil|].
  rewrite elem_of_cons. intros [->|Hv].
  - destruct (decide (Some w ≠ o)) as [|Hd].
    + left. by left.
    + right. destruct (decide (o = Some w)) as [|Hn]; [done|].
      destruct Hd. congruence.
  - destruct (IH (Some w) Hv) as [Hin|[= ->]].
    + destruct (decide (Some w ≠ o)); [left; by right|by left].
    + destruct (decide (Some v ≠ o)) as [|Hd].
      * left. by left.
      * right. destruct (decide (o = Some v)) as [|Hn]; [done|].
        destruct Hd. congruence.
Qed.

Lemma elem_of_uniq l v : v ∈ uniq l ↔ v ∈ l.
Proof.
  split; [apply elem_of_uniq_from|].
  intros Hv. by destruct (elem_of_uniq_from_2 None l v Hv).
Qed.

Lemma uniq_from_sorted z l :
  Forall (Z.le z) l → StronglySorted Z.le l →
  StronglySorted Z.lt (uniq_from (Some z) l) ∧ Forall (Z.lt z) (uniq_from (Some z) l).
Proof.
  revert z. induction l as [|v l IH]; intros z Hz Hl; simpl.
  { split; constructor. }
  apply Forall_cons in Hz as [Hzv Hz].
  apply StronglySorted_cons in Hl as [Hvl Hl].
  destruct (IH v Hvl Hl) as [IH1 IH2].
  case_decide as Hd.
  - assert (z < v) by (assert (v ≠ z) by congruence; lia).
    split; [by apply SSorted_cons|].
    constructor; [done|]. eapply Forall_impl; [done|]. simpl. lia.
  - assert (v = z) as -> by (destruct (decide (v = z)); congruence). done.
Qed.

Lemma uniq_sorted l : StronglySorted Z.le l → StronglySorted Z.lt (uniq l).
Proof.
  destruct l as [|v l]; [constructor|].
  intros [Hvl Hl]%StronglySorted_cons. unfold uniq. simpl.
  destruct (uniq_from_sorted v l Hvl Hl). by apply SSorted_cons.
Qed.

End uniq.

(** ** The walk keeps its invariant *)

Section walk.

Variable b : Z.
Hypothesis Hb : 0 < b.

Implicit Types pre rest : list Z.

(** What holds before each iteration, [pre] being the values already
    visited and [rest] those still to come. *)
Record walk_inv pre rest (st : Walk.locals) : Prop := WalkInv {
  inv_last : Walk.last_value st = last pre;
  inv_vc : Walk.value_category st = take (Z.to_nat (b + 1)) (uniq pre);
  inv_sp : Walk.split_points st `sublist_of` drop 1 (uniq pre);
  inv_len : Z.of_nat (length (Walk.split_points st)) < b;
  inv_exp :
    ceil_div (Walk.remained_count st)
      (b - Z.of_nat (length (Walk.split_points st)))
    = Some (Walk.expected_bin_count st);
  inv_rem :
    Walk.remained_count st - Walk.current_bin_count st
    = Z.of_nat (length rest);
  inv_cur : 0 <= Walk.current_bin_count st;
  inv_cur0 : pre = [] → Walk.current_bin_count st = 0
}.

(** What holds when the loop is left, by exhaustion or by [break]. *)
Definition walk_post (xs : list Z) (st : Walk.locals) : Prop :=
  ∃ pre suf,
    xs = pre ++ suf ∧
    Walk.value_category st = take (Z.to_nat (b + 1)) (uniq pre) ∧
    Walk.split_points st `sublist_of` drop 1 (uniq pre) ∧
    Z.of_nat (length (Walk.split_points st)) < b ∧
    (suf = [] ∨
     (Z.of_nat (length (Walk.split_points st)) = b - 1 ∧
      Walk.split_points st ≠ [])).

Lemma take_snoc_cap (n : nat) (l : list Z) v :
  (if decide (Z.of_nat (length (take n l)) <= Z.of_nat n - 1)
   then take n l ++ [v] else take n l) = take n (l ++ [v]).
Proof.
  destruct (decide (length l < n)%nat).
  - rewrite !take_ge by (rewrite ?length_app; simpl; lia).
    by rewrite decide_True by lia.
  - rewrite take_app_le by lia.
    rewrite decide_False; [done|]. rewrite length_take_le; lia.
Qed.

Lemma drop1_sublist_app (l l' : list Z) : drop 1 l `sublist_of` drop 1 (l ++ l').
Proof.
  destruct l as [|a l]; simpl; [apply sublist_nil_l|].
  rewrite drop_0. by apply sublist_inserts_r.
Qed.

Lemma body_inv pre v rest st :
  walk_inv pre (v :: rest) st →
  (∃ st', Walk.body b st v = Walk.Continue st' ∧ walk_inv (pre ++ [v]) rest st') ∨
  (∃ st', Walk.body b st v = Walk.Break st' ∧ walk_post (pre ++ v :: rest) st').
Proof.
  intros [Hlast Hvc Hsp Hlen Hexp Hrem Hcur Hcur0].
  simpl in Hrem. unfold Walk.body.
  assert (Z.of_nat (Z.to_nat (b + 1)) - 1 = b) as Hcap by lia.
  pose proof (take_snoc_cap (Z.to_nat (b + 1)) (uniq pre) v) as Hvc'.
  rewrite Hcap, <-Hvc in Hvc'.
  rewrite Hlast. destruct (decide (Some v ≠ last pre)) as [Hnew|Hold].
  - assert (uniq (pre ++ [v]) = uniq pre ++ [v]) as Hu
      by (by rewrite uniq_snoc, decide_True).
    rewrite Hvc', <-Hu.
    destruct (decide (Walk.current_bin_count st >= Walk.expected_bin_count st))
      as [Hsplit|Hkeep].
    + assert (1 <= Walk.expected_bin_count st) as He
        by (eapply ceil_div_pos; [| |exact Hexp]; lia).
      assert (b - Z.of_nat (length (Walk.split_points st)) ≠ 1) as Hk.
      { intros Hk. rewrite Hk in Hexp. apply ceil_div_one in Hexp. lia. }
      assert (pre ≠ []) as Hpre by (intros ->; specialize (Hcur0 eq_refl); lia).
      assert (Walk.split_points st ++ [v] `sublist_of` drop 1 (uniq (pre ++ [v])))
        as Hsp'.
      { rewrite Hu. destruct (uniq pre) as [|a l] eqn:Eu.
        { by apply uniq_nil_inv in Eu. }
        simpl in *. rewrite drop_0 in *. by apply sublist_app. }
      rewrite length_app. simpl.
      destruct (decide (Z.of_nat (length (Walk.split_points st) + 1) = b - 1))
        as [Hbrk|Hgo].
      * right. eexists. split; [done|].
        exists (pre ++ [v]), rest. simpl.
        split_and!; [by rewrite <-app_assoc|done|done|..].
        -- rewrite length_app. simpl. lia.
        -- right. rewrite length_app. simpl. split; [lia|].
           by destruct (Walk.split_points st).
      * rewrite ceil_div_Some by lia. left. eexists. split; [done|].
        constructor; simpl; rewrite ?length_app, ?last_snoc; simpl;
          try done; try lia.
        -- apply ceil_div_Some. lia.
        -- by destruct pre.
    + left. eexists. split; [done|].
      constructor; simpl; rewrite ?last_snoc; try done; try lia.
      * rewrite Hu. etrans; [done|]. apply drop1_sublist_app.
      * by destruct pre.
  - assert (uniq (pre ++ [v]) = uniq pre) as Hu
      by (by rewrite uniq_snoc, decide_False).
    left. eexists. split; [done|].
    constructor; simpl; rewrite ?Hu; try done; try lia.
    * rewrite last_snoc. destruct (decide (last pre = Some v)) as [|Hn]; [done|].
      destruct Hold. congruence.
    * by destruct pre.
Qed.

Lemma run_post rest : ∀ pre st,
  walk_inv pre rest st →
  ∃ st', Walk.run b st rest = inr st' ∧ walk_post (pre ++ rest) st'.
Proof.
  induction rest as [|v rest IH]; intros pre st Hinv.
  - exists st. split; [done|]. exists pre, []. destruct Hinv. eauto 10.
  - simpl. destruct (body_inv _ _ _ _ Hinv) as [(st' & -> & Hst')|(st' & -> & Hst')].
    + destruct (IH _ _ Hst') as (st'' & ? & ?). exists st''.
      by rewrite <-app_assoc in *.
    + eauto.
Qed.

(** The walk over a non-empty array never raises. *)
Lemma run_initial xs e :
  xs ≠ [] →
  ceil_div (Z.of_nat (length xs)) b = Some e →
  ∃ st', Walk.run b (Walk.Locals [] None [] e 0 (Z.of_nat (length xs))) xs
         = inr st' ∧ walk_post xs st'.
Proof.
  intros Hxs He. apply (run_post xs []).
  constructor; simpl; try done; try lia.
  - by destruct (Z.to_nat (b + 1)).
  - by rewrite Z.sub_0_r.
Qed.

End walk.

(** ** The binary search returns the upper bound *)

Section bisect.

Lemma StronglySorted_sublist (l k : list Z) :
  l `sublist_of` k → StronglySorted Z.lt k → StronglySorted Z.lt l.
Proof.
  induction 1 as [|a l k Hs IH|a l k Hs IH]; intros Hk; [done|..];
    apply StronglySorted_cons in Hk as [Ha Hk].
  - apply SSorted_cons; [auto|].
    apply Forall_forall. intros z Hz.
    eapply Forall_forall in Ha; [done|]. by eapply elem_of_sublist.
  - auto.
Qed.

Lemma sorted_lookup_lt (l : list Z) (i j : nat) a c :
  StronglySorted Z.lt l → l !! i = Some a → l !! j = Some c →
  (i < j)%nat → a < c.
Proof.
  intros Hl. revert i j. induction Hl as [|z l Hl IH Hz]; intros i j; [done|].
  destruct i as [|i], j as [|j]; simpl; try lia.
  - intros [= <-] Hj _. eapply Forall_lookup in Hz; done.
  - intros Hi Hj ?. eapply IH; [done..|lia].
Qed.

Lemma sorted_lookup_le (l : list Z) (i j : nat) a c :
  StronglySorted Z.lt l → l !! i = Some a → l !! j = Some c →
  (i <= j)%nat → a <= c.
Proof.
  intros Hl Hi Hj Hij. destruct (decide (i = j)) as [->|].
  - rewrite Hi in Hj. injection Hj as ->. lia.
  - assert (a < c); [|lia]. eapply sorted_lookup_lt; [done..|lia].
Qed.

(** The search stays inside the list it is given, sorted or not. *)
Lemma upper_bound_loop_total (sp : list pyfloat) (x : Z) (n : nat) :
  ∀ count pos,
    (Z.to_nat count <= n)%nat →
    0 <= pos → 0 <= count → pos + count <= Z.of_nat (length sp) →
    ∃ r, upper_bound_loop sp x count pos = Returned r ∧ pos <= r <= pos + count.
Proof.
  induction n as [|n IH]; intros count pos Hn Hpos Hcount Hlen;
    simp upper_bound_loop;
    destruct (decide (count > 0)) as [Hgt|Hle]; simpl;
    try (exists pos; split; [done|lia]); [lia|].
  assert (0 <= count `div` 2 < count) as Hstep
    by (split; [apply Z.div_pos|apply Z.div_lt]; lia).
  set (step := count `div` 2) in *.
  destruct (lookup_lt_is_Some_2 sp (Z.to_nat (pos + step)) ltac:(lia))
    as [v Hv].
  rewrite py_index_nonneg, Hv by lia. simpl.
  destruct (decide (Finite x = v)); simpl.
  { eexists. split; [done|lia]. }
  destruct (decide (gt_float x v)); simpl.
  - destruct (IH (count - (step + 1)) (pos + step + 1)) as (r & Hr & ?);
      try lia. exists r. split; [exact Hr|lia].
  - destruct (IH step pos) as (r & Hr & ?); try lia.
    exists r. split; [exact Hr|lia].
Qed.

Lemma upper_bound_bin_total (sp : list pyfloat) (x : Z) :
  ∃ r, upper_bound_bin sp x = Returned r ∧ 0 <= r <= Z.of_nat (length sp).
Proof.
  unfold upper_bound_bin.
  destruct (upper_bound_loop_total sp x (length sp)
              (Z.of_nat (length sp)) 0) as (r & Hr & ?); try lia.
  exists r. split; [done|lia].
Qed.

Lemma sorted_le_lookup (l : list Z) (i j : nat) a c :
  StronglySorted Z.le l → l !! i = Some a → l !! j = Some c →
  (i <= j)%nat → a <= c.
Proof.
  intros Hl. revert i j. induction Hl as [|z l Hl IH Hz]; intros i j; [done|].
  destruct i as [|i], j as [|j]; simpl; try lia.
  - intros [= <-] [= <-] _. lia.
  - intros [= <-] Hj _. eapply Forall_lookup in Hz; done.
  - intros Hi Hj ?. eapply IH; [done..|lia].
Qed.

(** Over split points that ascend but may repeat, the search still
    separates the points below the value from the points above it. *)
Lemma upper_bound_loop_weak (l : list Z) (x : Z) (n : nat) :
  StronglySorted Z.le l →
  ∀ count pos,
    (Z.to_nat count <= n)%nat →
    0 <= pos → 0 <= count → pos + count <= Z.of_nat (length l) →
    (∀ (i : nat) z, l !! i = Some z → Z.of_nat i < pos → z <= x) →
    (∀ (i : nat) z, l !! i = Some z → pos + count <= Z.of_nat i → x <= z) →
    ∃ r, upper_bound_loop (map Finite l) x count pos = Returned r ∧
         search_bound l x r.
Proof.
  intros Hl.
  induction n as [|n IH]; intros count pos Hn Hpos Hcount Hlen Hlo Hhi;
    simp upper_bound_loop;
    destruct (decide (count > 0)) as [Hgt|Hle]; simpl; try lia.
  1,3: exists pos; split; [done|]; split; [lia|]; intros i z Hi;
    split; intros ?; [eapply Hlo|eapply Hhi]; try done; lia.
  assert (0 <= count `div` 2 < count) as Hstep
    by (split; [apply Z.div_pos|apply Z.div_lt]; lia).
  set (step := count `div` 2) in *.
  destruct (lookup_lt_is_Some_2 l (Z.to_nat (pos + step)) ltac:(lia))
    as [z Hz].
  rewrite py_index_nonneg, list_lookup_fmap, Hz by lia. simpl.
  destruct (decide (Finite x = Finite z)) as [Heq|Hne]; simpl.
  { injection Heq as Heq. subst z. eexists. split; [done|]. split; [lia|].
    intros i y Hi. split; intros ?.
    - eapply sorted_le_lookup; [done|exact Hi|exact Hz|lia].
    - eapply sorted_le_lookup; [done|exact Hz|exact Hi|lia]. }
  destruct (decide (z < x)) as [Hzx|Hxz]; simpl.
  - apply IH; try lia.
    + intros i y Hi ?. assert (y <= z); [|lia].
      eapply sorted_le_lookup; [done|exact Hi|exact Hz|lia].
    + intros i y Hi ?. eapply Hhi; [done|lia].
  - apply IH; try lia; [exact Hlo|].
    intros i y Hi ?. assert (z <= y); [|lia].
    eapply sorted_le_lookup; [done|exact Hz|exact Hi|lia].
Qed.

Lemma upper_bound_bin_weak (l : list Z) (x : Z) :
  StronglySorted Z.le l →
  ∃ r, upper_bound_bin (map Finite l) x = Returned r ∧ search_bound l x r.
Proof.
  intros Hl. unfold upper_bound_bin. rewrite length_map.
  apply (upper_bound_loop_weak l x (length l)); try done; try lia.
  intros i z Hi%lookup_lt_Some ?. lia.
Qed.

(** Of two values, the smaller is not placed above the larger. *)
Lemma search_bound_mono (l : list Z) (v w r r' : Z) :
  search_bound l v r → search_bound l w r' → v < w → r <= r'.
Proof.
  intros [Hr Hv] [Hr' Hw] Hvw.
  destruct (decide (r <= r')) as [|Hgt]; [done|].
  destruct (lookup_lt_is_Some_2 l (Z.to_nat r') ltac:(lia)) as [z Hz].
  pose proof (proj1 (Hv _ _ Hz) ltac:(lia)).
  pose proof (proj2 (Hw _ _ Hz) ltac:(lia)). lia.
Qed.


Variable l : list Z.
Variable x : Z.
Hypothesis Hl : StronglySorted Z.lt l.

Lemma upper_bound_loop_spec (n : nat) : ∀ count pos,
  (Z.to_nat count <= n)%nat →
  0 <= pos → 0 <= count → pos + count <= Z.of_nat (length l) →
  (∀ (i : nat) z, l !! i = Some z → Z.of_nat i < pos → z <= x) →
  (∀ (i : nat) z, l !! i = Some z → pos + count <= Z.of_nat i → x < z) →
  ∃ r, upper_bound_loop (map Finite l) x count pos = Returned r ∧
       upper_bound l x r.
Proof.
  induction n as [|n IH]; intros count pos Hn Hpos Hcount Hlen Hlo Hhi.
  - assert (count = 0) as -> by lia. exists pos. simp upper_bound_loop.
    simpl. split; [done|]. split; [lia|]. intros i z Hi. split; [eauto|].
    intros Hz. destruct (decide (Z.of_nat i < pos)); [done|].
    assert (x < z) by (eapply Hhi; [done|lia]). lia.
  - simp upper_bound_loop. destruct (decide (count > 0)) as [Hgt|Hle]; simpl.
    2:{ exists pos. split; [done|]. split; [lia|]. intros i z Hi.
        split; [eauto|]. intros Hz.
        destruct (decide (Z.of_nat i < pos)); [done|].
        assert (x < z) by (eapply Hhi; [done|lia]). lia. }
    assert (0 <= count `div` 2 < count) as Hstep
      by (split; [apply Z.div_pos|apply Z.div_lt]; lia).
    set (step := count `div` 2) in *.
    destruct (lookup_lt_is_Some_2 l (Z.to_nat (pos + step)) ltac:(lia))
      as [z Hz].
    rewrite py_index_nonneg, list_lookup_fmap, Hz by lia. simpl.
    destruct (decide (Finite x = Finite z)) as [Heq|Hne]; simpl.
    { injection Heq as Heq. subst z. eexists. split; [done|]. split; [lia|]. intros i y Hi. split.
      - intros ?. eapply sorted_lookup_le; [done|exact Hi|exact Hz|lia].
      - intros Hy. destruct (decide (Z.of_nat i < pos + step + 1)); [done|].
        assert (x < y); [|lia].
        eapply sorted_lookup_lt; [done|exact Hz|exact Hi|lia]. }
    destruct (decide (z < x)) as [Hzx|Hxz]; simpl.
    + apply IH; try lia.
      * intros i y Hi ?. assert (y <= z); [|lia].
        eapply sorted_lookup_le; [done|exact Hi|exact Hz|lia].
      * intros i y Hi ?. eapply Hhi; [done|lia].
    + apply IH; try lia; [exact Hlo|].
      intros i y Hi ?. assert (z <= y).
      { eapply sorted_lookup_le; [done|exact Hz|exact Hi|lia]. }
      assert (x ≠ z) by congruence. lia.
Qed.

(** [upper_bound_bin] over ascending split points always returns, and
    returns the number of split points that are [<= x]. *)
Lemma upper_bound_bin_spec :
  ∃ r, upper_bound_bin (map Finite l) x = Returned r ∧ upper_bound l x r.
Proof.
  unfold upper_bound_bin. rewrite length_map.
  apply (upper_bound_loop_spec (length l)); try lia.
  intros i z Hi%lookup_lt_Some ?. lia.
Qed.

End bisect.

(** ** What [_qcut] returns *)

Section qcut.

Variable c : OrderMapContext.
Variable b : Z.
Hypothesis Hc : buckets c = Some b.
Hypothesis Hb : 0 < b.

Implicit Types x l : list Z.

Lemma sorted_last_max (R : relation Z) l m :
  (∀ a a', R a a' → a <= a') →
  StronglySorted R l → last l = Some m → Forall (λ e, e <= m) l.
Proof.
  intros HR. destruct l as [|a l _] using rev_ind; [done|].
  rewrite last_snoc. intros Hl [= ->].
  apply Forall_app. split; [|by repeat constructor].
  apply Forall_forall. intros e He. apply HR.
  eapply StronglySorted_app_1_elem_of; [done..|]. by left.
Qed.

Lemma sorted_x_sorted x : StronglySorted Z.le (merge_sort Z.le x).
Proof. apply StronglySorted_merge_sort; apply _. Qed.

Lemma elem_of_sorted_x x v : v ∈ merge_sort Z.le x ↔ v ∈ x.
Proof. by rewrite merge_sort_Permutation. Qed.

Lemma length_sorted_x x : length (merge_sort Z.le x) = length x.
Proof. by rewrite merge_sort_Permutation. Qed.

Lemma qcut_empty : _qcut c [] = Raised AssertionError.
Proof. done. Qed.

Lemma vectorize_Forall2 {A B} (f : A → outcome B) (l : list A) rs :
  vectorize f l = Returned rs → Forall2 (λ a r, f a = Returned r) l rs.
Proof.
  revert rs. induction l as [|a l IH]; intros rs; simpl.
  { intros [= <-]. constructor. }
  destruct (f a) as [r|] eqn:Hf; simpl; [|done].
  destruct (vectorize f l) as [rs'|]; simpl; [|done].
  intros [= <-]. constructor; [done|]. by apply IH.
Qed.

Lemma upper_bound_bin_returns (sp : list pyfloat) (x : list Z) :
  ∃ bins, vectorize (upper_bound_bin sp) x = Returned bins.
Proof.
  induction x as [|v x [bins IH]]; simpl; [by eexists|].
  destruct (upper_bound_loop_total sp v (length sp) (Z.of_nat (length sp)) 0)
    as (r & Hr & _); try lia.
  unfold upper_bound_bin at 1. rewrite Hr, IH. simpl. by eexists.
Qed.

(** The split points [_qcut] settles on once the walk is over
    (lines 62-68), as a relation between the walk's final state and the
    chosen list. *)
Inductive chosen (xs : list Z) (st : Walk.locals) : list Z → Prop :=
| chosen_category :
    Z.of_nat (length (Walk.value_category st)) <= b →
    chosen xs st (drop 1 (Walk.value_category st))
| chosen_walk lst :
    b < Z.of_nat (length (Walk.value_category st)) →
    last (Walk.split_points st) = Some lst →
    last xs = Some lst →
    chosen xs st (Walk.split_points st)
| chosen_walk_max lst mx :
    b < Z.of_nat (length (Walk.value_category st)) →
    last (Walk.split_points st) = Some lst →
    last xs = Some mx →
    lst ≠ mx →
    chosen xs st (Walk.split_points st ++ [mx]).

Lemma chosen_sorted xs st l :
  StronglySorted Z.le xs → walk_post b xs st → chosen xs st l →
  StronglySorted Z.lt l ∧ Z.of_nat (length l) <= b ∧ ∀ v, v ∈ l → v ∈ xs.
Proof.
  intros Hxs (pre & suf & -> & Hvc & Hsp & Hlen & _) Hl.
  assert (StronglySorted Z.lt (uniq pre)) as Hu.
  { apply uniq_sorted. by eapply StronglySorted_app_1_l. }
  assert (∀ v, v ∈ uniq pre → v ∈ pre ++ suf) as Hin.
  { intros v Hv. rewrite elem_of_app. left. by apply (elem_of_uniq_from None). }
  assert (StronglySorted Z.lt (Walk.split_points st)) as Hsorted.
  { eapply StronglySorted_sublist; [done|].
    eapply StronglySorted_sublist; [apply sublist_drop|done]. }
  assert (∀ v, v ∈ Walk.split_points st → v ∈ pre ++ suf) as Hsp_in.
  { intros v Hv. apply Hin. eapply elem_of_sublist; [|apply sublist_drop].
    by eapply elem_of_sublist. }
  destruct Hl as [Hcat|lst Hcat Hlst Hmx|lst mx Hcat Hlst Hmx Hne].
  - split_and!.
    + eapply StronglySorted_sublist; [apply sublist_drop|].
      rewrite Hvc. eapply StronglySorted_sublist; [apply sublist_take|done].
    + rewrite length_drop. lia.
    + intros v Hv. apply Hin. eapply elem_of_sublist; [|apply sublist_take].
      rewrite <-Hvc. by eapply elem_of_sublist; [|apply sublist_drop].
  - split_and!; [done|lia|done].
  - split_and!.
    + apply StronglySorted_app_2; [|done|by repeat constructor].
      intros e m He ->%list_elem_of_singleton.
      assert (e <= lst).
      { eapply (Forall_forall (λ e, e <= lst)); [|done].
        eapply (sorted_last_max Z.lt); [lia|done..]. }
      assert (lst <= mx); [|lia].
      eapply (Forall_forall (λ e, e <= mx)); [by eapply (sorted_last_max Z.le)|].
      apply Hsp_in. by apply last_Some_elem_of.
    + rewrite length_app. simpl. lia.
    + intros v [?| ->%list_elem_of_singleton]%elem_of_app; [auto|].
      by apply last_Some_elem_of.
Qed.

Definition walk_start (x : list Z) (e : Z) : Walk.locals :=
  Walk.Locals [] None [] e 0 (Z.of_nat (length (merge_sort Z.le x))).

(** [_qcut] on a non-empty column: the walk ends, and either split
    points are chosen and every cell gets its bin, or the walk emitted
    no split point although more than [buckets] values were seen, and
    [split_points[-1]] raises. *)
Lemma qcut_cases x :
  x ≠ [] →
  ∃ e st,
    ceil_div (Z.of_nat (length (merge_sort Z.le x))) b = Some e ∧
    Walk.run b (walk_start x e) (merge_sort Z.le x) = inr st ∧
    walk_post b (merge_sort Z.le x) st ∧
    ((∃ l bins,
        chosen (merge_sort Z.le x) st l ∧
        _qcut c x = Returned (bins, map float l) ∧
        Forall2 (λ v r, upper_bound_bin (map float l) v = Returned r) x bins) ∨
     (b < Z.of_nat (length (Walk.value_category st)) ∧
      Walk.split_points st = [] ∧
      _qcut c x = Raised IndexError)).
Proof.
  intros Hx. set (xs := merge_sort Z.le x).
  assert (xs ≠ []) as Hxs.
  { intros Hnil. apply (f_equal length) in Hnil.
    unfold xs in Hnil. rewrite length_sorted_x in Hnil. by destruct x. }
  assert (StronglySorted Z.le xs) as Hsorted by apply sorted_x_sorted.
  pose proof (ceil_div_Some (Z.of_nat (length xs)) b ltac:(lia)) as He.
  destruct (run_initial b Hb xs _ Hxs He) as (st & Hrun & Hpost).
  eexists _, st. split; [exact He|]. split; [exact Hrun|]. split; [done|].
  unfold _qcut. fold xs.
  rewrite decide_True by (destruct xs; simpl; [done|lia]).
  rewrite Hc, He. unfold walk_start in Hrun. fold xs in Hrun. rewrite Hrun.
  destruct (decide (Z.of_nat (length (Walk.value_category st)) <= b))
    as [Hcat|Hcat]; simpl.
  { pose proof (chosen_category xs st Hcat) as Hch.
    destruct (upper_bound_bin_returns
                (map float (drop 1 (Walk.value_category st))) x) as [bins Hbins].
    rewrite Hbins. left. eexists _, bins. split_and!; [done..|].
    by apply vectorize_Forall2. }
  rewrite !py_index_last.
  destruct (last (Walk.split_points st)) as [lst|] eqn:Hlst.
  2:{ right. apply last_None in Hlst. split_and!; [lia|done..]. }
  destruct (last xs) as [mx|] eqn:Hmx.
  2:{ by apply last_None in Hmx. }
  left. destruct (decide (lst ≠ mx)) as [Hne|Heq]; simpl.
  - pose proof (chosen_walk_max xs st lst mx ltac:(lia) Hlst Hmx Hne) as Hch.
    destruct (upper_bound_bin_returns
                (map float (Walk.split_points st ++ [mx])) x) as [bins Hbins].
    rewrite Hbins. eexists _, bins. split_and!; [done..|].
    by apply vectorize_Forall2.
  - assert (lst = mx) as -> by (destruct (decide (lst = mx)); [done|by destruct Heq]).
    pose proof (chosen_walk xs st mx ltac:(lia) Hlst Hmx) as Hch.
    destruct (upper_bound_bin_returns (map float (Walk.split_points st)) x)
      as [bins Hbins].
    rewrite Hbins. eexists _, bins. split_and!; [done..|].
    by apply vectorize_Forall2.
Qed.

(** A returned cut: the split points are the doubles of ascending values
    of the column, at most [buckets] of them, and the bin of each cell is
    what the search returns for it. *)
Lemma qcut_returned x bins sp :
  _qcut c x = Returned (bins, sp) →
  ∃ l, sp = map float l ∧ StronglySorted Z.lt l ∧
       Z.of_nat (length l) <= b ∧ (∀ v, v ∈ l → v ∈ x) ∧
       Forall2 (λ v r, upper_bound_bin sp v = Returned r) x bins.
Proof.
  intros Hq. destruct (decide (x = [])) as [->|Hx].
  { by rewrite qcut_empty in Hq. }
  destruct (qcut_cases x Hx)
    as (e & st & _ & _ & Hpost & [(l & bins' & Hch & Hq' & Hbins)|(_ & _ & Hq')]);
    rewrite Hq' in Hq; [|done].
  injection Hq as <- <-.
  destruct (chosen_sorted _ _ _ (sorted_x_sorted x) Hpost Hch) as (? & ? & Hin).
  exists l. split_and!; [done..| |done].
  intros v Hv. by apply elem_of_sorted_x, Hin.
Qed.

(** What the search returns for the cells, when the split points are the
    doubles of the strictly ascending [l]. *)
Lemma bins_upper_bound l x bins :
  StronglySorted Z.lt l → Forall representable l →
  Forall2 (λ v r, upper_bound_bin (map float l) v = Returned r) x bins →
  Forall2 (upper_bound l) x bins.
Proof.
  intros Hl Hrep. rewrite (float_representable l Hrep). intros Hbins.
  eapply Forall2_impl; [exact Hbins|]. simpl. intros v r Hr.
  destruct (upper_bound_bin_spec l v Hl) as (r' & Hr' & Hub). congruence.
Qed.

Lemma bins_range (sp : list pyfloat) x bins :
  Forall2 (λ v r, upper_bound_bin sp v = Returned r) x bins →
  Forall (λ r, 0 <= r <= Z.of_nat (length sp)) bins.
Proof.
  intros Hbins. apply Forall_forall. intros r [i Hi]%list_elem_of_lookup.
  destruct (Forall2_lookup_r _ _ _ _ _ Hbins Hi) as (v & _ & Hr).
  destruct (upper_bound_bin_total sp v) as (r' & Hr' & ?). congruence.
Qed.

(** A returned cut of a column of doubles: strictly ascending split
    points, at most [buckets] of them, all taken from the column, and the
    bin of each cell is the number of split points that do not exceed
    it. *)
Lemma qcut_returned_exact x bins sp :
  Forall representable x →
  _qcut c x = Returned (bins, sp) →
  ∃ l, sp = map Finite l ∧ StronglySorted Z.lt l ∧
       Z.of_nat (length l) <= b ∧ (∀ v, v ∈ l → v ∈ x) ∧
       Forall2 (upper_bound l) x bins.
Proof.
  intros Hrep Hq.
  destruct (qcut_returned x bins sp Hq) as (l & -> & Hl & Hlen & Hin & Hbins).
  pose proof (representable_sub l x Hin Hrep) as Hrl.
  exists l. split_and!; [by apply float_representable|done..|].
  by apply bins_upper_bound.
Qed.

Lemma qcut_raised x e :
  _qcut c x = Raised e →
  (x = [] ∧ e = AssertionError) ∨ (x ≠ [] ∧ e = IndexError).
Proof.
  intros Hq. destruct (decide (x = [])) as [->|Hx].
  { rewrite qcut_empty in Hq. left. by injection Hq as <-. }
  right. split; [done|].
  destruct (qcut_cases x Hx)
    as (? & st & _ & _ & _ & [(l & bins' & _ & Hq' & _)|(_ & _ & Hq')]);
    rewrite Hq' in Hq; [done|]. by injection Hq as <-.
Qed.

End qcut.

(** ** Columns with few distinct values *)

Section low_cardinality.

Implicit Types x l : list Z.

Lemma StronglySorted_lt_le l : StronglySorted Z.lt l → StronglySorted Z.le l.
Proof.
  induction 1 as [|a l Hl IH Ha]; constructor; [done|].
  eapply Forall_impl; [done|]. simpl. lia.
Qed.

Lemma StronglySorted_lt_NoDup l : StronglySorted Z.lt l → NoDup l.
Proof.
  induction 1 as [|a l Hl IH Ha]; constructor; [|done].
  intros Hin. eapply (Forall_forall (Z.lt a)) in Ha; [|done]. lia.
Qed.

(** The values the walk tells apart are the distinct values of the
    column. *)
Lemma uniq_sorted_distinct x : uniq (merge_sort Z.le x) = distinct_values x.
Proof.
  pose proof (uniq_sorted _ (sorted_x_sorted x)) as Hu.
  apply (StronglySorted_unique Z.le).
  - by apply StronglySorted_lt_le.
  - apply StronglySorted_merge_sort; apply _.
  - apply NoDup_Permutation.
    + by apply StronglySorted_lt_NoDup.
    + unfold distinct_values. rewrite merge_sort_Permutation.
      apply NoDup_remove_dups.
    + intros v. unfold distinct_values.
      rewrite elem_of_uniq, !merge_sort_Permutation.
      by rewrite elem_of_remove_dups.
Qed.



(** With at most [b] distinct values, [value_category] holds all of them
    when the walk is over, also when it was left by [break]. *)
Lemma walk_post_complete b xs st :
  0 < b → walk_post b xs st →
  Z.of_nat (length (uniq xs)) <= b →
  Walk.value_category st = uniq xs.
Proof.
  intros Hb (pre & suf & -> & Hvc & Hsp & Hlen & Hend) Hk.
  pose proof (uniq_prefix pre suf) as Hpre.
  pose proof (prefix_length _ _ Hpre) as Hpl.
  rewrite Hvc, take_ge by lia.
  destruct Hend as [->|[Hfull Hne]]; [by rewrite app_nil_r|].
  apply prefix_length_eq; [done|].
  apply sublist_length in Hsp. rewrite length_drop in Hsp.
  assert (length (Walk.split_points st) ≠ 0)%nat
    by (by destruct (Walk.split_points st)).
  lia.
Qed.



Lemma qcut_low_cardinality c b x :
  buckets c = Some b → 0 < b → x ≠ [] →
  Z.of_nat (length (distinct_values x)) <= b →
  ∃ bins,
    _qcut c x = Returned (bins, map float (drop 1 (distinct_values x))) ∧
    Forall2 (λ v r, upper_bound_bin (map float (drop 1 (distinct_values x))) v
                    = Returned r) x bins.
Proof.
  intros Hc Hb Hx Hk.
  destruct (qcut_cases c b Hc Hb x Hx) as (e & st & _ & _ & Hpost & Hcases).
  rewrite <-uniq_sorted_distinct in *.
  pose proof (walk_post_complete _ _ _ Hb Hpost Hk) as Hvc.
  destruct Hcases as [(l & bins & Hch & Hq & Hbins)|(? & _)]; [|rewrite Hvc in *; lia].
  exists bins. destruct Hch; rewrite ?Hvc in *; try lia. done.
Qed.

(** Where the maximum of the column is covered: on the path of line 66,
    and on the path of line 62 when the column has between two and
    [buckets] distinct values, the last split point is the double of the
    maximum. *)
Lemma last_uniq l : last (uniq l) = last l.
Proof.
  induction l as [|v l IH] using rev_ind; [done|].
  rewrite uniq_snoc, last_snoc.
  destruct (decide (Some v ≠ last l)) as [|Heq]; [by rewrite last_snoc|].
  rewrite IH. destruct (decide (last l = Some v)) as [|Hn]; [done|].
  destruct Heq. congruence.
Qed.

Lemma last_drop1 l : (2 <= length l)%nat → last (drop 1 l) = last l.
Proof. destruct l as [|a [|a' l]]; simpl; [lia..|done]. Qed.

Lemma qcut_covers_maximum c b x e st bins sp mx :
  buckets c = Some b → 0 < b →
  ceil_div (Z.of_nat (length (merge_sort Z.le x))) b = Some e →
  Walk.run b (walk_start x e) (merge_sort Z.le x) = inr st →
  _qcut c x = Returned (bins, sp) →
  last (merge_sort Z.le x) = Some mx →
  b < Z.of_nat (length (Walk.value_category st)) ∨
    2 <= Z.of_nat (length (distinct_values x)) <= b →
  last sp = Some (float mx).
Proof.
  intros Hc Hb He Hrun Hq Hmx Hpath.
  assert (x ≠ []) as Hx by (intros ->; by rewrite (qcut_empty c) in Hq).
  destruct (qcut_cases c b Hc Hb x Hx)
    as (e' & st' & He' & Hrun' & Hpost & [(l & bins' & Hch & Hq' & _)|(_ & _ & Hq')]);
    rewrite Hq' in Hq; [|done].
  injection Hq as <- <-. rewrite He in He'. injection He' as <-.
  rewrite Hrun in Hrun'. injection Hrun' as <-.
  rewrite fmap_last.
  assert (last l = Some mx) as ->; [|done].
  destruct Hpath as [Hwalk|Hfew].
  - destruct Hch as [Hcat|lst _ Hlst Hmx'|lst mx' _ _ Hmx' _]; [lia|congruence|].
    rewrite last_snoc. congruence.
  - rewrite <-uniq_sorted_distinct in Hfew.
    pose proof (walk_post_complete _ _ _ Hb Hpost ltac:(lia)) as Hvc.
    destruct Hch as [Hcat|lst Hcat _ _|lst mx' Hcat _ _ _];
      rewrite Hvc in *; [|lia..].
    rewrite last_drop1 by lia. by rewrite last_uniq.
Qed.

End low_cardinality.

(** ** The feature loop of [build_maps] *)

(** What one iteration of the loop stores for a column: the bins as
    [int8] cells, [total_buckets] and the padded split points. *)
Definition feature_result (b : Z) (col : list Z)
    : outcome (list Z * Z * list pyfloat) :=
  try r <- _qcut (ctx_with_buckets b) col;
  let '(total_buckets, split_point) :=
    pad_loop b (Z.of_nat (length r.2)) r.2 in
  Returned (map int8 r.1, total_buckets, split_point).

Definition stored_bins (r : list Z * Z * list pyfloat) : list Z := r.1.1.
Definition stored_total (r : list Z * Z * list pyfloat) : Z := r.1.2.
Definition stored_points (r : list Z * Z * list pyfloat) : list pyfloat := r.2.

Section build.

Lemma pad_loop_spec b (n : nat) : ∀ t sp,
  Z.to_nat (b + 1 - t) = n →
  pad_loop b t sp =
    if decide (t <= b)
    then (b + 1, sp ++ replicate (Z.to_nat (b + 1 - t)) PosInf)
    else (t, sp).
Proof.
  induction n as [|n IH]; intros t sp Hn; simp pad_loop;
    destruct (decide (t <= b)) as [Hle|Hgt]; simpl; try done; try lia.
  rewrite (IH (t + 1)) by lia.
  replace (Z.to_nat (b + 1 - t)) with (S (Z.to_nat (b + 1 - (t + 1)))) by lia.
  simpl. rewrite <-app_assoc. simpl.
  destruct (decide (t + 1 <= b)); [done|].
  replace (Z.to_nat (b + 1 - (t + 1))) with 0%nat by lia.
  simpl. f_equal. lia.
Qed.

(** Only [buckets] is read by [_qcut]. *)
Lemma qcut_ext c c' x : buckets c = buckets c' → _qcut c x = _qcut c' x.
Proof. intros Hb. unfold _qcut. by rewrite Hb. Qed.

Variables xl om : positive.
Variable x : ndarray.
Variable b : Z.
Variable F : option Z.
Variable shp : option (Z * Z).
Hypothesis Hom : om ≠ xl.

(** The context while the loop runs. *)
Definition loop_ctx (sps : list (list pyfloat)) (fbs : list Z) : OrderMapContext :=
  Ctx (Some om) (Some sps) (Some fbs) F (Some b) shp.

Lemma build_feature_step h sps fbs r cols (f : nat) col :
  h !! xl = Some x → columns x !! f = Some col →
  h !! om = Some (NdArray r cols) →
  build_feature xl f (Machine h (loop_ctx sps fbs)) =
    match feature_result b col with
    | Returned res =>
        (Returned (),
         Machine (<[om := NdArray r (<[f := stored_bins res]> cols)]> h)
           (loop_ctx (sps ++ [stored_points res]) (fbs ++ [stored_total res])))
    | Raised e => (Raised e, Machine h (loop_ctx sps fbs))
    end.
Proof.
  intros Hx Hcol Hmap.
  unfold build_feature, bind, read_array, lift, get_self, write_array,
    put_self, feature_result. simpl.
  rewrite Hx, Hcol. simpl.
  rewrite (qcut_ext (loop_ctx sps fbs) (ctx_with_buckets b))
    by done.
  destruct (_qcut _ col) as [[bins sp]|e]; simpl; [|done].
  rewrite Hmap. simpl.
  by destruct (pad_loop b (Z.of_nat (length sp)) sp).
Qed.

Lemma for_each_features rest : ∀ pre h sps fbs done zs r,
  columns x = pre ++ rest →
  h !! xl = Some x →
  h !! om = Some (NdArray r (done ++ zs)) →
  length done = length pre → length zs = length rest →
  match vectorize (feature_result b) rest with
  | Returned rs =>
      for_each (build_feature xl) (seq (length pre) (length rest))
        (Machine h (loop_ctx sps fbs)) =
      (Returned (),
       Machine (<[om := NdArray r (done ++ map stored_bins rs)]> h)
         (loop_ctx (sps ++ map stored_points rs) (fbs ++ map stored_total rs)))
  | Raised e =>
      ∃ m',
        for_each (build_feature xl) (seq (length pre) (length rest))
          (Machine h (loop_ctx sps fbs)) = (Raised e, m') ∧
        heap m' !! xl = Some x ∧
        order_map_shape (self m') = shp
  end.
Proof.
  induction rest as [|col rest IH]; intros pre h sps fbs done zs r Hcols Hx Hmap Hd Hz.
  - simpl. destruct zs; [|done]. unfold ret. rewrite !app_nil_r in *.
    by rewrite (insert_id h om _ Hmap).
  - destruct zs as [|z zs]; [done|]. simpl in Hz.
    assert (columns x !! length pre = Some col) as Hcol.
    { rewrite Hcols. by rewrite list_lookup_middle. }
    assert (for_each (build_feature xl) (seq (length pre) (length (col :: rest)))
              (Machine h (loop_ctx sps fbs)) =
            match feature_result b col with
            | Returned res =>
                for_each (build_feature xl) (seq (S (length pre)) (length rest))
                  (Machine
                     (<[om := NdArray r (<[length pre := stored_bins res]>
                                           (done ++ z :: zs))]> h)
                     (loop_ctx (sps ++ [stored_points res])
                        (fbs ++ [stored_total res])))
            | Raised e => (Raised e, Machine h (loop_ctx sps fbs))
            end) as ->.
    { simpl. unfold bind.
      rewrite (build_feature_step _ _ _ _ _ _ _ Hx Hcol Hmap).
      by destruct (feature_result b col). }
    simpl. destruct (feature_result b col) as [res|e]; simpl; [|by eexists].
    rewrite insert_app_r_alt, Hd, Nat.sub_diag by lia. simpl.
    specialize (IH (pre ++ [col])
                  (<[om := NdArray r (done ++ stored_bins res :: zs)]> h)
                  (sps ++ [stored_points res]) (fbs ++ [stored_total res])
                  (done ++ [stored_bins res]) zs r).
    rewrite !length_app in IH. simpl in IH.
    rewrite !Nat.add_1_r in IH.
    rewrite lookup_insert_ne, lookup_insert_eq, <-!app_assoc in IH by done.
    simpl in IH. specialize (IH Hcols Hx eq_refl ltac:(lia) ltac:(lia)).
    destruct (vectorize (feature_result b) rest) as [rs|e]; simpl; [|done].
    rewrite IH. by rewrite insert_insert_eq, <-!app_assoc.
Qed.

End build.

(** ** What [build_maps] leaves behind *)

(** The machine after a build that returned, [rs] being what the loop
    stored for each column. *)
Definition built (m : machine) (x : ndarray) (b : Z)
    (rs : list (list Z * Z * list pyfloat)) : machine :=
  let om := fresh (dom (heap m)) in
  Machine (<[om := NdArray (nrows x) (map stored_bins rs)]> (heap m))
    (Ctx (Some om) (Some (map stored_points rs)) (Some (map stored_total rs))
       (Some (Z.of_nat (length (columns x)))) (Some b) (Some (shape x))).

Section build_maps.

Lemma vectorize_length {A B} (f : A → outcome B) (l : list A) rs :
  vectorize f l = Returned rs → length rs = length l.
Proof.
  revert rs. induction l as [|a l IH]; intros rs; simpl; [by intros [= <-]|].
  destruct (f a); simpl; [|done]. destruct (vectorize f l); simpl; [|done].
  intros [= <-]. simpl. by rewrite (IH _ eq_refl).
Qed.

Lemma vectorize_lookup {A B} (f : A → outcome B) (l : list A) rs (i : nat) a :
  vectorize f l = Returned rs → l !! i = Some a →
  ∃ r, f a = Returned r ∧ rs !! i = Some r.
Proof.
  revert rs i. induction l as [|a' l IH]; intros rs i; simpl; [done|].
  destruct (f a') as [r'|] eqn:Hf; simpl; [|done].
  destruct (vectorize f l) as [rs'|]; simpl; [|done].
  intros [= <-]. destruct i as [|i]; simpl.
  - intros [= ->]. eauto.
  - intros Hi. by apply IH.
Qed.

Lemma fresh_loc_ne (h : gmap positive ndarray) (xl : positive) x :
  h !! xl = Some x → fresh (dom h) ≠ xl.
Proof.
  intros Hx Heq. apply (is_fresh (dom h)). rewrite Heq.
  apply elem_of_dom. eauto.
Qed.

Lemma build_maps_spec m xl x b :
  heap m !! xl = Some x →
  match vectorize (feature_result b) (columns x) with
  | Returned rs => build_maps xl b m = (Returned (), built m x b rs)
  | Raised e =>
      ∃ m',
        build_maps xl b m = (Raised e, m') ∧
        heap m' !! xl = Some x ∧
        order_map_shape (self m') = order_map_shape (self m)
  end.
Proof.
  intros Hx. pose proof (fresh_loc_ne _ _ _ Hx) as Hne.
  set (om := fresh (dom (heap m))) in *.
  pose proof (for_each_features xl om x b
                (Some (Z.of_nat (length (columns x))))
                (order_map_shape (self m)) Hne (columns x) []
                (<[om := zeros (nrows x) (length (columns x))]> (heap m))
                [] [] [] (replicate (length (columns x)) (replicate (nrows x) 0))
                (nrows x) eq_refl) as Hloop.
  rewrite lookup_insert_ne, lookup_insert_eq in Hloop by done.
  specialize (Hloop Hx eq_refl eq_refl (length_replicate _ _)).
  simpl in Hloop. unfold loop_ctx in Hloop.
  destruct (vectorize (feature_result b) (columns x)) as [rs|e] eqn:Hrs;
    unfold build_maps, bind, read_array, alloc, get_self, put_self; simpl;
    rewrite Hx; simpl; fold om.
  - rewrite Hloop. simpl. rewrite lookup_insert_eq. simpl.
    rewrite insert_insert_eq.
    unfold built, set_order_map_shape, shape. fold om. simpl.
    by rewrite length_map, (vectorize_length _ _ _ Hrs).
  - destruct Hloop as (m' & -> & ? & ?). by exists m'.
Qed.

(** A build returns exactly when the loop body returns for every column. *)
Lemma build_maps_returned m xl x b m' :
  heap m !! xl = Some x →
  build_maps xl b m = (Returned (), m') →
  ∃ rs, vectorize (feature_result b) (columns x) = Returned rs ∧ m' = built m x b rs.
Proof.
  intros Hx Hb. pose proof (build_maps_spec m xl x b Hx) as Hs.
  destruct (vectorize (feature_result b) (columns x)) as [rs|e].
  - exists rs. split; [done|]. congruence.
  - destruct Hs as (? & ? & _). congruence.
Qed.

End build_maps.

(** * What a caller can observe *)

(** [order_map[i, f]] of the context's order map. *)
Definition order_map_cell (m : machine) (i f : nat) : option Z :=
  om ← order_map (self m); a ← heap m !! om; cell a i f.

(** [split_points[f]] and [feature_buckets[f]] of the context. *)
Definition stored_split_points (m : machine) (f : nat) : option (list pyfloat) :=
  sps ← split_points (self m); sps !! f.

Definition stored_feature_bucket (m : machine) (f : nat) : option Z :=
  fbs ← feature_buckets (self m); fbs !! f.

(** An end of a bucket's interval: [split_points[k]], where
    [split_points[-1]] stands for minus infinity. *)
Inductive bound :=
| NegInf
| Point (p : pyfloat).

Definition boundary (sp : list pyfloat) (k : Z) : option bound :=
  if decide (k = -1) then Some NegInf
  else if decide (0 <= k) then Point <$> sp !! Z.to_nat k
  else None.


Definition bound_le (bd : bound) (v : Z) : Prop :=
  match bd with
  | NegInf => True
  | Point (Finite z) => z <= v
  | Point PosInf => False
  end.

Definition le_bound (v : Z) (bd : bound) : Prop :=
  match bd with
  | NegInf => False
  | Point (Finite z) => v <= z
  | Point PosInf => True
  end.

Definition lt_bound (v : Z) (bd : bound) : Prop :=
  match bd with
  | NegInf => False
  | Point (Finite z) => v < z
  | Point PosInf => True
  end.


(** [split_points[k-1] <= v < split_points[k]] *)
Definition left_closed (sp : list pyfloat) (v k : Z) : Prop :=
  ∃ lo hi, boundary sp (k - 1) = Some lo ∧ boundary sp k = Some hi ∧
           0 <= k ∧ bound_le lo v ∧ lt_bound v hi.


Section observations.

Lemma built_feature m xl x b m' (f : nat) col :
  0 < b → heap m !! xl = Some x →
  build_maps xl b m = (Returned (), m') →
  columns x !! f = Some col →
  ∃ bins l,
    _qcut (self m') col = Returned (bins, map float l) ∧
    StronglySorted Z.lt l ∧
    Z.of_nat (length l) <= b ∧
    (∀ v, v ∈ l → v ∈ col) ∧
    Forall2 (λ v r, upper_bound_bin (map float l) v = Returned r) col bins ∧
    stored_split_points m' f
      = Some (map float l
              ++ replicate (Z.to_nat (b + 1 - Z.of_nat (length l))) PosInf) ∧
    stored_feature_bucket m' f = Some (b + 1) ∧
    (∀ i, order_map_cell m' i f = int8 <$> bins !! i).
Proof.
  intros Hb Hx Hbuild Hcol.
  destruct (build_maps_returned _ _ _ _ _ Hx Hbuild) as (rs & Hrs & ->).
  destruct (vectorize_lookup _ _ _ _ _ Hrs Hcol) as (res & Hres & Hf).
  unfold feature_result in Hres.
  destruct (_qcut _ col) as [[bins sp]|] eqn:Hq; simpl in Hres; [|done].
  destruct (qcut_returned (ctx_with_buckets b) b eq_refl
              Hb _ _ _ Hq) as (l & -> & Hl & Hlen & Hin & Hbins).
  rewrite (pad_loop_spec b _ _ _ eq_refl) in Hres.
  rewrite decide_True in Hres by (rewrite length_map; lia).
  rewrite length_map in Hres. injection Hres as <-.
  exists bins, l. split_and!; try done.
  - unfold stored_split_points, built. simpl.
    by rewrite list_lookup_fmap, Hf.
  - unfold stored_feature_bucket, built. simpl.
    by rewrite list_lookup_fmap, Hf.
  - intros i. unfold order_map_cell, built, cell. simpl.
    rewrite lookup_insert_eq. simpl.
    rewrite list_lookup_fmap, Hf. simpl. unfold stored_bins. simpl.
    by rewrite list_lookup_fmap.
Qed.





End observations.

(** * Properties of the order map context *)

(** An array with the single column [col]. *)
Definition one_column (col : list Z) : ndarray := NdArray (length col) [col].

(** The machine after [OrderMapContext().build_maps(x, buckets)], [x]
    having the single column [col]. *)
Definition after_build (col : list Z) (b : Z) : machine :=
  (build_maps 1%positive b (boot (one_column col))).2.

Definition build_outcome (col : list Z) (b : Z) : outcome () :=
  (build_maps 1%positive b (boot (one_column col))).1.

Lemma build_boot col b :
  build_maps 1%positive b (boot (one_column col))
  = (build_outcome col b, after_build col b).
Proof. unfold build_outcome, after_build. by destruct (build_maps _ _ _). Qed.




(** C2, as the code has it: after a build with a positive bucket count
    that returned, every feature has at most [buckets] split points before
    padding, and its stored list is those split points followed by
    [+inf] entries only, [buckets + 1] entries in all. *)
Theorem C2_padded_split_points m xl x b m' (f : nat) col :
  0 < b →
  heap m !! xl = Some x →
  build_maps xl b m = (Returned (), m') →
  columns x !! f = Some col →
  ∃ bins sp n,
    _qcut (self m') col = Returned (bins, sp) ∧
    Z.of_nat (length sp) <= b ∧
    stored_split_points m' f = Some (sp ++ replicate n PosInf) ∧
    Z.of_nat (length (sp ++ replicate n PosInf)) = b + 1.
Proof.
  intros Hb Hx Hbuild Hcol.
  destruct (built_feature _ _ _ _ _ _ _ Hb Hx Hbuild Hcol)
    as (bins & l & Hq & _ & Hlen & _ & _ & Hsp & _).
  exists bins, (map float l). eexists.
  split_and!; [done|by rewrite length_map|exact Hsp|].
  rewrite length_app, length_map, length_replicate. lia.
Qed.

Lemma C2_padded_split_points_witness :
  ∃ bins sp n,
    _qcut (self (after_build [1; 2; 3; 4] 2)) [1; 2; 3; 4] = Returned (bins, sp) ∧
    Z.of_nat (length sp) <= 2 ∧
    stored_split_points (after_build [1; 2; 3; 4] 2) 0
      = Some (sp ++ replicate n PosInf) ∧
    Z.of_nat (length (sp ++ replicate n PosInf)) = 2 + 1.
Proof.
  apply (C2_padded_split_points (boot (one_column [1; 2; 3; 4])) 1%positive
           (one_column [1; 2; 3; 4]) 2 (after_build [1; 2; 3; 4] 2) 0
           [1; 2; 3; 4]).
  - lia.
  - reflexivity.
  - rewrite build_boot. vm_compute. reflexivity.
  - reflexivity.
Defined.

(** C2, as stated, fails: with the column [1, 2, 3, 4] and two buckets
    the cut has the two split points [3, 4], more than [buckets - 1], and
    the stored list [3, 4, inf] has three entries, not two. *)
Lemma C2_counterexample_lengths :
  build_outcome [1; 2; 3; 4] 2 = Returned () ∧
  _qcut (self (after_build [1; 2; 3; 4] 2)) [1; 2; 3; 4]
    = Returned ([0; 0; 1; 2], [Finite 3; Finite 4]) ∧
  ¬ (Z.of_nat (length [Finite 3; Finite 4]) <= 2 - 1) ∧
  stored_split_points (after_build [1; 2; 3; 4] 2) 0
    = Some [Finite 3; Finite 4; PosInf] ∧
  Z.of_nat (length [Finite 3; Finite 4; PosInf]) ≠ 2.
Proof. split_and!; by vm_compute. Qed.




(** C4 fails on the code: the column [1, 2, 3, 3, 3, 3] is not empty and
    the bucket count 2 is positive, yet [_qcut] raises IndexError.  The
    walk emits no split point (the bin size 3 is never reached before the
    last new value), three distinct values were seen, more than [buckets],
    and line 66 reads [split_points[-1]] of the empty list.  The build
    raises with it. *)
Theorem C4_nonempty_column_raises :
  _qcut (ctx_with_buckets 2) [1; 2; 3; 3; 3; 3] = Raised IndexError ∧
  build_outcome [1; 2; 3; 3; 3; 3] 2 = Raised IndexError ∧
  _qcut (ctx_with_buckets 2) [] = Raised AssertionError.
Proof. split_and!; by vm_compute. Qed.

(** C5 fails on the code: with the column [1, 1, 2, 3] and two buckets
    the walk breaks at the value 2 with [value_category = [1, 2]], so the
    test of line 62 takes the column for one with at most two distinct
    values although it has three; the split points are [2] and the
    maximum 3 is above the last of them. *)
Theorem C5_maximum_not_covered :
  _qcut (ctx_with_buckets 2) [1; 1; 2; 3] = Returned ([0; 0; 1; 1], [Finite 2]) ∧
  Walk.run 2 (walk_start [1; 1; 2; 3] 2) [1; 1; 2; 3]
    = inr (Walk.Locals [1; 2] (Some 1) [2] 2 2 4) ∧
  distinct_values [1; 1; 2; 3] = [1; 2; 3] ∧
  last (merge_sort Z.le [1; 1; 2; 3]) = Some 3 ∧
  ¬ le_bound 3 (Point (Finite 2)).
Proof. split_and!; by vm_compute. Qed.

(** C6, as the code has it: on a context on which [build_maps] was never
    called, [get_feature_bucket_at] raises TypeError and
    [get_order_map_shape] raises AttributeError, while [get_order_map],
    [get_features], [get_feature_buckets] and [get_split_points] return
    [None]; once [feature_buckets] is a list of [n] counts,
    [get_feature_bucket_at] raises IndexError for an index [>= n] or
    [< -n]; and no accessor changes the machine. *)
Theorem C6_accessors m :
  (self m = __init__ →
     (∀ index, get_feature_bucket_at index m = (Raised TypeError, m)) ∧
     get_order_map_shape m = (Raised AttributeError, m) ∧
     get_order_map m = (Returned None, m) ∧
     get_features m = (Returned None, m) ∧
     get_feature_buckets m = (Returned None, m) ∧
     get_split_points m = (Returned None, m)) ∧
  (∀ fb index,
     feature_buckets (self m) = Some fb →
     Z.of_nat (length fb) <= index ∨ index < - Z.of_nat (length fb) →
     get_feature_bucket_at index m = (Raised IndexError, m)) ∧
  (get_order_map m).2 = m ∧
  (get_features m).2 = m ∧
  (get_feature_buckets m).2 = m ∧
  (∀ index, (get_feature_bucket_at index m).2 = m) ∧
  (get_split_points m).2 = m ∧
  (get_order_map_shape m).2 = m.
Proof.
  split_and!; try done.
  - intros Hinit.
    unfold get_feature_bucket_at, get_order_map_shape, get_order_map,
      get_features, get_feature_buckets, get_split_points, bind, get_self, ret.
    by rewrite Hinit.
  - intros fb index Hfb Hidx.
    unfold get_feature_bucket_at, bind, get_self. rewrite Hfb.
    assert (py_index fb index = None) as ->; [|done].
    unfold py_index. destruct Hidx.
    + rewrite decide_True by lia. apply lookup_ge_None. lia.
    + by rewrite !decide_False by lia.
  - intros index. unfold get_feature_bucket_at, bind, get_self, raise, ret.
    destruct (feature_buckets (self m)) as [fb|]; [|done].
    by destruct (py_index fb index).
  - unfold get_order_map_shape, bind, get_self, raise, ret.
    by destruct (order_map_shape (self m)).
Qed.

Lemma C6_accessors_witness :
  (∀ index,
     get_feature_bucket_at index (boot (one_column [10; 20]))
     = (Raised TypeError, boot (one_column [10; 20]))) ∧
  get_order_map_shape (boot (one_column [10; 20]))
    = (Raised AttributeError, boot (one_column [10; 20])) ∧
  get_feature_bucket_at 1 (after_build [10; 20] 4)
    = (Raised IndexError, after_build [10; 20] 4) ∧
  get_feature_bucket_at (-2) (after_build [10; 20] 4)
    = (Raised IndexError, after_build [10; 20] 4).
Proof.
  destruct (C6_accessors (boot (one_column [10; 20])))
    as (Hinit & _).
  destruct (Hinit eq_refl) as (Hat & Hshape & _).
  destruct (C6_accessors (after_build [10; 20] 4)) as (_ & Hidx & _).
  split_and!; [exact Hat|exact Hshape|..].
  - apply (Hidx [5]); [reflexivity|]. left. simpl. lia.
  - apply (Hidx [5]); [reflexivity|]. right. simpl. lia.
Defined.

(** C6, as stated, fails: on a context that was never built
    [get_order_map], [get_features], [get_feature_buckets] and
    [get_split_points] return [None] and report no error; and after a
    build with one feature the index [-1] is not an error either, it reads
    the last count. *)
Lemma C6_counterexample_no_error :
  (get_order_map (boot (one_column [10; 20]))).1 = Returned None ∧
  (get_features (boot (one_column [10; 20]))).1 = Returned None ∧
  (get_feature_buckets (boot (one_column [10; 20]))).1 = Returned None ∧
  (get_split_points (boot (one_column [10; 20]))).1 = Returned None ∧
  ¬ (∃ e, (get_order_map (boot (one_column [10; 20]))).1 = Raised e) ∧
  (get_feature_bucket_at (-1) (after_build [10; 20] 4)).1 = Returned 5.
Proof.
  split_and!; try by vm_compute.
  by intros [e He].
Qed.

(** C7, as the code has it: the order map is an [np.int8] array whatever
    the bucket count; for [0 < buckets <= 127] every bin the cutter
    returns is in [[0, buckets]] and the stored cell [order_map[i, f]] is
    that bin, unchanged. *)
Theorem C7_int8_cells m xl x b m' (f : nat) col bins sp :
  0 < b <= 127 →
  heap m !! xl = Some x →
  build_maps xl b m = (Returned (), m') →
  columns x !! f = Some col →
  _qcut (self m') col = Returned (bins, sp) →
  Forall (λ k, 0 <= k <= b) bins ∧
  ∀ i, order_map_cell m' i f = bins !! i.
Proof.
  intros Hb Hx Hbuild Hcol Hq.
  assert (0 < b) as Hb0 by lia.
  destruct (built_feature _ _ _ _ _ _ _ Hb0 Hx Hbuild Hcol)
    as (bins' & l & Hq' & _ & Hlen & _ & Hbins & _ & _ & Hcell).
  rewrite Hq in Hq'. injection Hq' as <- _.
  assert (Forall (λ k, 0 <= k <= b) bins) as Hrange.
  { eapply Forall_impl; [by eapply bins_range|]. simpl.
    intros k. rewrite length_map. lia. }
  split; [done|]. intros i. rewrite Hcell.
  destruct (bins !! i) as [k|] eqn:Hk; [|done]. simpl.
  eapply Forall_lookup_1 in Hrange; [|done].
  by rewrite int8_small by lia.
Qed.

Lemma C7_int8_cells_witness :
  Forall (λ k, 0 <= k <= 4) [0; 0; 0; 1; 1; 1; 2; 2; 3; 4] ∧
  ∀ i, order_map_cell (after_build [1; 1; 2; 3; 4; 5; 6; 7; 8; 9] 4) i 0
       = [0; 0; 0; 1; 1; 1; 2; 2; 3; 4] !! i.
Proof.
  apply (C7_int8_cells (boot (one_column [1; 1; 2; 3; 4; 5; 6; 7; 8; 9]))
           1%positive (one_column [1; 1; 2; 3; 4; 5; 6; 7; 8; 9]) 4
           (after_build [1; 1; 2; 3; 4; 5; 6; 7; 8; 9] 4) 0
           [1; 1; 2; 3; 4; 5; 6; 7; 8; 9] [0; 0; 0; 1; 1; 1; 2; 2; 3; 4]
           [Finite 3; Finite 6; Finite 8; Finite 9]).
  - lia.
  - reflexivity.
  - rewrite build_boot. vm_compute. reflexivity.
  - reflexivity.
  - vm_compute. reflexivity.
Defined.

(** The column 0, 1, ..., 128. *)
Definition ramp : list Z := Z.of_nat <$> seq 0 129.

(** C7, as stated, fails: with 129 buckets and the column 0, ..., 128 the
    cutter gives the last sample the bin 128, which is within
    [[0, buckets]], and the [int8] cell of the order map holds -128. *)
Lemma C7_counterexample_wrap :
  build_outcome ramp 129 = Returned () ∧
  (try r <- _qcut (self (after_build ramp 129)) ramp; Returned (r.1 !! 128%nat))
    = Returned (Some 128) ∧
  order_map_cell (after_build ramp 129) 128 0 = Some (-128).
Proof. split_and!; by vm_compute. Qed.




(** Everything the accessors give access to, the order map taken by its
    contents rather than by its address. *)
Record snapshot := Snapshot {
  seen_order_map : option ndarray;
  seen_split_points : option (list (list pyfloat));
  seen_feature_buckets : option (list Z);
  seen_features : option Z;
  seen_buckets : option Z;
  seen_order_map_shape : option (Z * Z)
}.

Definition observe (m : machine) : snapshot :=
  Snapshot (om ← order_map (self m); heap m !! om)
    (split_points (self m)) (feature_buckets (self m)) (features (self m))
    (buckets (self m)) (order_map_shape (self m)).

Lemma observe_built m x b rs :
  observe (built m x b rs) =
  Snapshot (Some (NdArray (nrows x) (map stored_bins rs)))
    (Some (map stored_points rs)) (Some (map stored_total rs))
    (Some (Z.of_nat (length (columns x)))) (Some b) (Some (shape x)).
Proof. unfold observe, built. simpl. by rewrite lookup_insert_eq. Qed.

(** The order map of a build that returned has the shape of the array
    it was built from. *)
Lemma built_order_map_shape m xl x b m' :
  0 < b → wf_ndarray x →
  heap m !! xl = Some x →
  build_maps xl b m = (Returned (), m') →
  ∃ a, seen_order_map (observe m') = Some a ∧ wf_ndarray a ∧ shape a = shape x.
Proof.
  intros Hb Hwf Hx Hbuild.
  destruct (build_maps_returned _ _ _ _ _ Hx Hbuild) as (rs & Hrs & ->).
  rewrite observe_built. simpl. eexists. split; [done|].
  pose proof (vectorize_length _ _ _ Hrs) as Hlen. split.
  - apply Forall_lookup. simpl. intros f bins8.
    rewrite list_lookup_fmap. intros Hf.
    destruct (rs !! f) as [res|] eqn:Hres; [|done]. injection Hf as <-.
    destruct (lookup_lt_is_Some_2 (columns x) f) as [col Hcol].
    { apply lookup_lt_Some in Hres. lia. }
    destruct (vectorize_lookup _ _ _ _ _ Hrs Hcol) as (res' & Hfr & Hres').
    rewrite Hres in Hres'. injection Hres' as <-.
    unfold feature_result in Hfr.
    destruct (_qcut _ col) as [[bins sp]|] eqn:Hq; simpl in Hfr; [|done].
    destruct (qcut_returned (ctx_with_buckets b) b eq_refl Hb _ _ _ Hq)
      as (l & _ & _ & _ & _ & Hbins).
    destruct (pad_loop _ _ _). injection Hfr as <-.
    unfold stored_bins. simpl. rewrite length_map.
    rewrite <-(Forall2_length _ _ _ Hbins).
    by eapply (Forall_lookup_1 _ _ _ _ Hwf).
  - unfold shape. simpl. by rewrite length_map, Hlen.
Qed.

(** C9, as the code has it: a build that returned leaves the same order
    map, split points, bucket counts, feature count, bucket setting and
    shape when it is run again on the context it has just filled, and when
    it is run on any other machine holding the same array, whatever an
    earlier build has stored in that context: nothing of the state before
    a build that returns remains. *)
Theorem C9_rebuild m xl x b m1 :
  heap m !! xl = Some x →
  build_maps xl b m = (Returned (), m1) →
  (∃ m2, build_maps xl b m1 = (Returned (), m2) ∧ observe m2 = observe m1) ∧
  (∀ m0 xl0,
     heap m0 !! xl0 = Some x →
     ∃ m2, build_maps xl0 b m0 = (Returned (), m2) ∧ observe m2 = observe m1).
Proof.
  intros Hx Hbuild.
  destruct (build_maps_returned _ _ _ _ _ Hx Hbuild) as (rs & Hrs & ->).
  assert (∀ m0 xl0, heap m0 !! xl0 = Some x →
            ∃ m2, build_maps xl0 b m0 = (Returned (), m2) ∧
                  observe m2 = observe (built m x b rs)) as Hany.
  { intros m0 xl0 Hx0. pose proof (build_maps_spec m0 xl0 x b Hx0) as Hs.
    rewrite Hrs in Hs. eexists. split; [exact Hs|].
    by rewrite !observe_built. }
  split; [|done]. apply Hany. unfold built. simpl.
  rewrite lookup_insert_ne; [done|]. by eapply fresh_loc_ne.
Qed.

Lemma C9_rebuild_witness :
  (∃ m2, build_maps 1%positive 4 (after_build [10; 20] 4) = (Returned (), m2) ∧
         observe m2 = observe (after_build [10; 20] 4)) ∧
  (∀ m0 xl0,
     heap m0 !! xl0 = Some (one_column [10; 20]) →
     ∃ m2, build_maps xl0 4 m0 = (Returned (), m2) ∧
           observe m2 = observe (after_build [10; 20] 4)).
Proof.
  apply (C9_rebuild (boot (one_column [10; 20])) 1%positive
           (one_column [10; 20]) 4 (after_build [10; 20] 4)).
  - reflexivity.
  - rewrite build_boot. vm_compute. reflexivity.
Defined.

(** C9, as stated, fails for a second build that raises: after a build
    over the column [10, 20], a build over an array with no rows stops at
    the assertion of [_qcut]; the order map is then the new empty one and
    the lists are empty, but [order_map_shape] is still [(2, 1)], as the
    first build set it (line 121 was not reached). *)
Lemma C9_counterexample_aborted_build :
  let m0 :=
    Machine {[ 1%positive := one_column [10; 20]; 3%positive := NdArray 0 [[]] ]}
      __init__ in
  let m1 := (build_maps 1%positive 4 m0).2 in
  let m2 := (build_maps 3%positive 4 m1).2 in
  (build_maps 1%positive 4 m0).1 = Returned () ∧
  seen_order_map_shape (observe m1) = Some (2, 1) ∧
  (build_maps 3%positive 4 m1).1 = Raised AssertionError ∧
  seen_order_map (observe m2) = Some (NdArray 0 [[]]) ∧
  seen_split_points (observe m2) = Some [] ∧
  seen_feature_buckets (observe m2) = Some [] ∧
  seen_order_map_shape (observe m2) = Some (2, 1).
Proof. split_and!; by vm_compute. Qed.

(** C10: whatever [build_maps] does, return or raise, the array it was
    given is afterwards what it was before, cell for cell. *)
Theorem C10_input_unchanged m xl x b :
  heap m !! xl = Some x →
  heap (build_maps xl b m).2 !! xl = Some x.
Proof.
  intros Hx. pose proof (build_maps_spec m xl x b Hx) as Hs.
  destruct (vectorize (feature_result b) (columns x)) as [rs|e].
  - rewrite Hs. unfold built. simpl.
    rewrite lookup_insert_ne; [done|]. by eapply fresh_loc_ne.
  - by destruct Hs as (m' & -> & ? & _).
Qed.

Lemma C10_input_unchanged_witness :
  heap (build_maps 1%positive 2 (boot (one_column [1; 2; 3; 4]))).2 !! 1%positive
  = Some (one_column [1; 2; 3; 4]).
Proof.
  apply (C10_input_unchanged (boot (one_column [1; 2; 3; 4])) 1%positive
           (one_column [1; 2; 3; 4]) 2).
  reflexivity.
Defined.

(** * Further properties of the cutter and of the context *)

Section search.


Lemma upper_bound_filter (l : list Z) (x r : Z) :
  upper_bound l x r → Z.of_nat (length (filter (λ z, z <= x) l)) = r.
Proof.
  revert r. induction l as [|a l IH]; intros r [Hr Hub]; simpl in *; [lia|].
  rewrite filter_cons. destruct (decide (a <= x)) as [Ha|Ha].
  - pose proof (proj2 (Hub 0%nat a eq_refl) Ha).
    simpl. rewrite Nat2Z.inj_succ, (IH (r - 1)); [lia|].
    split; [lia|]. intros i z Hi.
    specialize (Hub (S i) z Hi). lia.
  - assert (r = 0) as ->.
    { destruct (decide (r = 0)); [done|].
      pose proof (proj1 (Hub 0%nat a eq_refl) ltac:(lia)). lia. }
    apply IH. split; [lia|]. intros i z Hi.
    specialize (Hub (S i) z Hi). lia.
Qed.

End search.

(** X1: [upper_bound_bin] never reads outside the list it is given:
    whatever the list (sorted or not, padded or not) and the value, it
    returns, and the result is an index between 0 and the length of the
    list. *)
Theorem X1_upper_bound_bin_total (sp : list pyfloat) (x : Z) :
  ∃ r, upper_bound_bin sp x = Returned r ∧ 0 <= r <= Z.of_nat (length sp).
Proof.
  unfold upper_bound_bin.
  destruct (upper_bound_loop_total sp x (length sp)
              (Z.of_nat (length sp)) 0) as (r & Hr & ?); try lia.
  exists r. split; [done|lia].
Qed.

(** X2: over strictly ascending split points [upper_bound_bin] returns
    the number of split points that are less than or equal to the
    value. *)
Theorem X2_upper_bound_bin_counts (l : list Z) (x : Z) :
  StronglySorted Z.lt l →
  upper_bound_bin (map Finite l) x
  = Returned (Z.of_nat (length (filter (λ z, z <= x) l))).
Proof.
  intros Hl. destruct (upper_bound_bin_spec l x Hl) as (r & -> & Hr).
  by rewrite (upper_bound_filter _ _ _ Hr).
Qed.

Lemma X2_upper_bound_bin_counts_witness :
  upper_bound_bin (map Finite [3; 6; 8; 9]) 6
  = Returned (Z.of_nat (length (filter (λ z, z <= 6) [3; 6; 8; 9]))).
Proof.
  apply (X2_upper_bound_bin_counts [3; 6; 8; 9] 6).
  repeat constructor; lia.
Defined.



(** X4: the cut preserves order: of two samples of a column, the one
    with the smaller or equal value is in the same or in a lower
    bucket. *)
Theorem X4_bins_monotone c b x bins sp (i j : nat) v w r r' :
  buckets c = Some b → 0 < b →
  _qcut c x = Returned (bins, sp) →
  x !! i = Some v → x !! j = Some w →
  bins !! i = Some r → bins !! j = Some r' →
  v <= w → r <= r'.
Proof.
  intros Hc Hb Hq Hi Hj Hr Hr' Hvw.
  destruct (qcut_returned c b Hc Hb _ _ _ Hq) as (l & -> & Hl & _ & _ & Hbins).
  destruct (Forall2_lookup_l _ _ _ _ _ Hbins Hi) as (k & Hk & Hub).
  destruct (Forall2_lookup_l _ _ _ _ _ Hbins Hj) as (k' & Hk' & Hub').
  rewrite Hr in Hk. rewrite Hr' in Hk'. injection Hk as <-. injection Hk' as <-.
  destruct (decide (v = w)) as [->|Hne].
  { rewrite Hub in Hub'. injection Hub' as ->. lia. }
  pose proof (rounded_sorted l Hl) as Hsorted.
  rewrite map_float in Hub, Hub'.
  destruct (upper_bound_bin_weak _ v Hsorted) as (k & Hk & Hsb).
  destruct (upper_bound_bin_weak _ w Hsorted) as (k' & Hk' & Hsb').
  rewrite Hub in Hk. rewrite Hub' in Hk'. injection Hk as <-. injection Hk' as <-.
  eapply search_bound_mono; [exact Hsb|exact Hsb'|lia].
Qed.

Lemma X4_bins_monotone_witness : 1 <= 2.
Proof.
  apply (X4_bins_monotone (ctx_with_buckets 4) 4 [5; 1; 9; 3; 7; 2; 8; 4; 6; 1]
           [1; 0; 4; 1; 2; 0; 3; 1; 2; 0]
           [Finite 3; Finite 6; Finite 8; Finite 9] 0 4 5 7 1 2).
  - reflexivity.
  - lia.
  - vm_compute. reflexivity.
  - reflexivity.
  - reflexivity.
  - reflexivity.
  - reflexivity.
  - lia.
Defined.

Section cut_points.




Lemma merge_sort_Permutation_eq (x y : list Z) :
  x ≡ₚ y → merge_sort Z.le x = merge_sort Z.le y.
Proof.
  intros Hp. apply (StronglySorted_unique Z.le).
  - apply StronglySorted_merge_sort; apply _.
  - apply StronglySorted_merge_sort; apply _.
  - by rewrite !merge_sort_Permutation.
Qed.

End cut_points.



(** X6: with a positive bucket count [_qcut] raises in two ways only:
    AssertionError, exactly on the empty column, and IndexError, which
    needs a column with more than [buckets] distinct values; it never
    divides by zero. *)
Theorem X6_qcut_errors c b x e :
  buckets c = Some b → 0 < b →
  _qcut c x = Raised e →
  (x = [] ∧ e = AssertionError) ∨
  (x ≠ [] ∧ e = IndexError ∧ b < Z.of_nat (length (distinct_values x))).
Proof.
  intros Hc Hb Hq.
  destruct (qcut_raised c b Hc Hb x e Hq) as [?|[Hx ->]]; [by left|].
  right. split_and!; [done..|].
  destruct (decide (b < Z.of_nat (length (distinct_values x)))); [done|].
  destruct (qcut_low_cardinality c b x Hc Hb Hx ltac:(lia)) as (? & Hq' & _).
  by rewrite Hq' in Hq.
Qed.

Lemma X6_qcut_errors_witness :
  ([1; 2; 3; 3; 3; 3] = [] ∧ IndexError = AssertionError) ∨
  ([1; 2; 3; 3; 3; 3] ≠ [] ∧ IndexError = IndexError ∧
   2 < Z.of_nat (length (distinct_values [1; 2; 3; 3; 3; 3]))).
Proof.
  apply (X6_qcut_errors (ctx_with_buckets 2) 2 [1; 2; 3; 3; 3; 3] IndexError).
  - reflexivity.
  - lia.
  - vm_compute. reflexivity.
Defined.

(** X7: with a single bucket the cut returns only for a column whose
    values are all equal (no split point, every sample in bucket 0); a
    column with two or more distinct values raises IndexError. *)
Theorem X7_single_bucket c x :
  buckets c = Some 1 → x ≠ [] →
  (length (distinct_values x) = 1%nat →
     _qcut c x = Returned (replicate (length x) 0, [])) ∧
  ((2 <= length (distinct_values x))%nat → _qcut c x = Raised IndexError).
Proof.
  intros Hc Hx. assert (0 < 1) as Hb by lia. split.
  - intros Hk.
    destruct (qcut_low_cardinality c 1 x Hc Hb Hx ltac:(lia))
      as (bins & Hq & Hbins).
    destruct (distinct_values x) as [|d [|]]; try done. simpl in *.
    rewrite Hq. do 2 f_equal. symmetry. apply replicate_as_Forall. split.
    + symmetry. by eapply Forall2_length.
    + eapply Forall_impl; [by eapply bins_range|]. simpl. lia.
  - intros Hk. rewrite <-uniq_sorted_distinct in Hk.
    destruct (qcut_cases c 1 Hc Hb x Hx)
      as (e & st & _ & _ & Hpost & [(l & bins & Hch & _ & _)|(_ & _ & Hq)]);
      [exfalso|done].
    destruct Hpost as (pre & suf & Hxs & Hvc & _ & Hlen & Hend).
    assert (Walk.split_points st = []) as Hsp
      by (destruct (Walk.split_points st); [done|simpl in Hlen; lia]).
    destruct Hch as [Hcat|lst _ Hlst _|lst mx _ Hlst _ _];
      [|by rewrite Hsp in Hlst..].
    destruct Hend as [->|[_ ?]]; [|done].
    rewrite app_nil_r in Hxs. subst pre.
    rewrite Hvc, length_take in Hcat. lia.
Qed.

Lemma X7_single_bucket_witness :
  (length (distinct_values [5; 5; 5]) = 1%nat →
     _qcut (ctx_with_buckets 1) [5; 5; 5]
     = Returned (replicate (length [5; 5; 5]) 0, [])) ∧
  ((2 <= length (distinct_values [5; 5; 5]%Z))%nat →
     _qcut (ctx_with_buckets 1) [5; 5; 5] = Raised IndexError).
Proof.
  apply (X7_single_bucket (ctx_with_buckets 1) [5; 5; 5]).
  - reflexivity.
  - discriminate.
Defined.

(** X8: the split points do not depend on the order of the rows: a cut
    of a permutation of the column returns the same split points, and
    raises the same error when the cut of the column raises. *)
Theorem X8_split_points_permutation c x y :
  x ≡ₚ y →
  (∀ bins sp, _qcut c x = Returned (bins, sp) →
     ∃ bins', _qcut c y = Returned (bins', sp)) ∧
  (∀ e, _qcut c x = Raised e → _qcut c y = Raised e).
Proof.
  intros Hp. pose proof (merge_sort_Permutation_eq x y Hp) as Hs.
  unfold _qcut. rewrite <-Hs.
  destruct (decide (Z.of_nat (length (merge_sort Z.le x)) > 0)); [|by split].
  destruct (buckets c) as [b|]; [|by split].
  destruct (ceil_div _ b) as [e0|]; [|by split].
  destruct (Walk.run b _ _) as [|st]; [by split|].
  match goal with |- context [obind ?o _] => destruct o as [pts|] end;
    simpl; [|by split].
  destruct (upper_bound_bin_returns (map float pts) x) as [bx ->].
  destruct (upper_bound_bin_returns (map float pts) y) as [by' ->].
  simpl. split; [|done]. intros bins sp [= <- <-]. by eexists.
Qed.

Lemma X8_split_points_permutation_witness :
  (∀ bins sp, _qcut (ctx_with_buckets 2) [3; 1; 2] = Returned (bins, sp) →
     ∃ bins', _qcut (ctx_with_buckets 2) [1; 2; 3] = Returned (bins', sp)) ∧
  (∀ e, _qcut (ctx_with_buckets 2) [3; 1; 2] = Raised e →
     _qcut (ctx_with_buckets 2) [1; 2; 3] = Raised e).
Proof.
  apply (X8_split_points_permutation (ctx_with_buckets 2) [3; 1; 2] [1; 2; 3]).
  apply (Permutation_cons_append [1; 2] 3).
Defined.

Section partial_build.

Variables xl om : positive.
Variable x : ndarray.
Variable b : Z.
Variable F : option Z.
Variable shp : option (Z * Z).

Lemma for_each_cons h sps fbs r cols (f : nat) fs col :
  h !! xl = Some x → columns x !! f = Some col →
  h !! om = Some (NdArray r cols) →
  for_each (build_feature xl) (f :: fs) (Machine h (loop_ctx om b F shp sps fbs)) =
    match feature_result b col with
    | Returned res =>
        for_each (build_feature xl) fs
          (Machine (<[om := NdArray r (<[f := stored_bins res]> cols)]> h)
             (loop_ctx om b F shp (sps ++ [stored_points res])
                (fbs ++ [stored_total res])))
    | Raised e => (Raised e, Machine h (loop_ctx om b F shp sps fbs))
    end.
Proof.
  intros Hx Hcol Hmap. simpl. unfold bind.
  rewrite (build_feature_step _ _ _ _ _ _ _ _ _ _ _ _ _ Hx Hcol Hmap).
  by destruct (feature_result b col).
Qed.

(** The loop stops at the first column whose cut raises; what the columns
    before it gave has been stored. *)
Lemma for_each_raised rest : ∀ pre h sps fbs filled zs r e m',
  om ≠ xl →
  columns x = pre ++ rest →
  h !! xl = Some x →
  h !! om = Some (NdArray r (filled ++ zs)) →
  length filled = length pre → length zs = length rest →
  for_each (build_feature xl) (seq (length pre) (length rest))
    (Machine h (loop_ctx om b F shp sps fbs)) = (Raised e, m') →
  ∃ before col after rs,
    rest = before ++ col :: after ∧
    vectorize (feature_result b) before = Returned rs ∧
    feature_result b col = Raised e ∧
    m' = Machine
           (<[om := NdArray r (filled ++ map stored_bins rs
                               ++ drop (length before) zs)]> h)
           (loop_ctx om b F shp (sps ++ map stored_points rs)
              (fbs ++ map stored_total rs)).
Proof.
  induction rest as [|col rest IH];
    intros pre h sps fbs filled zs r e m' Hom Hcols Hx Hmap Hd Hz Hrun; [done|].
  destruct zs as [|z zs]; [done|]. simpl in Hz.
  assert (columns x !! length pre = Some col) as Hcol.
  { rewrite Hcols. by rewrite list_lookup_middle. }
  change (seq (length pre) (length (col :: rest)))
    with (length pre :: seq (S (length pre)) (length rest)) in Hrun.
  rewrite (for_each_cons _ _ _ _ _ _ _ _ Hx Hcol Hmap) in Hrun.
  destruct (feature_result b col) as [res|e0] eqn:Hres.
  - rewrite insert_app_r_alt, Hd, Nat.sub_diag in Hrun by lia.
    change (<[0%nat := stored_bins res]> (z :: zs))
      with (stored_bins res :: zs) in Hrun.
    destruct (IH (pre ++ [col])
                (<[om := NdArray r (filled ++ stored_bins res :: zs)]> h)
                (sps ++ [stored_points res]) (fbs ++ [stored_total res])
                (filled ++ [stored_bins res]) zs r e m')
      as (before & col' & after & rs & -> & Hrs & Hraise & ->); try done.
    + by rewrite <-app_assoc.
    + by rewrite lookup_insert_ne.
    + by rewrite lookup_insert_eq, <-app_assoc.
    + rewrite !length_app. simpl. lia.
    + lia.
    + rewrite length_app, Nat.add_1_r. exact Hrun.
    + exists (col :: before), col', after, (res :: rs).
      split_and!; [done| |done|].
      * simpl. by rewrite Hres, Hrs.
      * rewrite insert_insert_eq. simpl. by rewrite <-!app_assoc.
  - injection Hrun as <- <-. exists [], col, rest, [].
    split_and!; [done..|]. simpl. rewrite !app_nil_r.
    by rewrite (insert_id h om _ Hmap).
Qed.

End partial_build.

(** The machine after a build that raised at the column after [rs]. *)
Definition half_built (m : machine) (x : ndarray) (b : Z)
    (rs : list (list Z * Z * list pyfloat)) : machine :=
  let om := fresh (dom (heap m)) in
  Machine
    (<[om := NdArray (nrows x)
               (map stored_bins rs
                ++ replicate (length (columns x) - length rs)
                     (replicate (nrows x) 0))]> (heap m))
    (Ctx (Some om) (Some (map stored_points rs)) (Some (map stored_total rs))
       (Some (Z.of_nat (length (columns x)))) (Some b)
       (order_map_shape (self m))).

Lemma build_maps_raised m xl x b e m' :
  heap m !! xl = Some x →
  build_maps xl b m = (Raised e, m') →
  ∃ before col after rs,
    columns x = before ++ col :: after ∧
    vectorize (feature_result b) before = Returned rs ∧
    feature_result b col = Raised e ∧
    m' = half_built m x b rs.
Proof.
  intros Hx Hbuild. pose proof (fresh_loc_ne _ _ _ Hx) as Hne.
  pose proof (build_maps_spec m xl x b Hx) as Hspec.
  set (om := fresh (dom (heap m))) in *.
  pose proof (for_each_features xl om x b
                (Some (Z.of_nat (length (columns x))))
                (order_map_shape (self m)) Hne (columns x) []
                (<[om := zeros (nrows x) (length (columns x))]> (heap m))
                [] [] [] (replicate (length (columns x)) (replicate (nrows x) 0))
                (nrows x) eq_refl) as Hloop.
  rewrite lookup_insert_ne, lookup_insert_eq in Hloop by done.
  specialize (Hloop Hx eq_refl eq_refl (length_replicate _ _)).
  destruct (vectorize (feature_result b) (columns x)) as [rs0|e0].
  { rewrite Hspec in Hbuild. done. }
  destruct Hloop as (m1 & Hrun & _).
  revert Hbuild.
  unfold build_maps, bind, read_array, alloc, get_self, put_self; simpl.
  rewrite Hx; simpl. fold om.
  simpl in Hrun. unfold loop_ctx in Hrun. rewrite Hrun.
  intros [= <- <-].
  destruct (for_each_raised xl om x b
              (Some (Z.of_nat (length (columns x))))
              (order_map_shape (self m)) (columns x) []
              (<[om := zeros (nrows x) (length (columns x))]> (heap m))
              [] [] [] (replicate (length (columns x)) (replicate (nrows x) 0))
              (nrows x) e0 m1)
    as (before & col & after & rs & Hcols & Hrs & Hraise & ->); try done.
  - by rewrite lookup_insert_ne.
  - by rewrite lookup_insert_eq.
  - by rewrite length_replicate.
  - exists before, col, after, rs. split_and!; [done..|].
    unfold half_built. fold om. simpl. rewrite insert_insert_eq.
    by rewrite drop_replicate, (vectorize_length _ _ _ Hrs).
Qed.

Section features.

Lemma vectorize_returns {A B} (f : A → outcome B) (l : list A) :
  Forall (λ a, ∃ r, f a = Returned r) l → ∃ rs, vectorize f l = Returned rs.
Proof.
  induction 1 as [|a l [r Hr] _ [rs IH]]; simpl; [by eexists|].
  rewrite Hr, IH. simpl. by eexists.
Qed.

Lemma feature_result_raised b col e :
  feature_result b col = Raised e ↔ _qcut (ctx_with_buckets b) col = Raised e.
Proof.
  unfold feature_result.
  destruct (_qcut _ col) as [[bins sp]|]; simpl.
  - destruct (pad_loop _ _ _). split; intros; discriminate.
  - split; intros [= ->]; reflexivity.
Qed.

Lemma feature_result_returned b col res :
  0 < b → feature_result b col = Returned res →
  ∃ bins l,
    _qcut (ctx_with_buckets b) col = Returned (bins, map float l) ∧
    Z.of_nat (length l) <= b ∧
    res = (map int8 bins, b + 1,
           map float l ++ replicate (Z.to_nat (b + 1 - Z.of_nat (length l))) PosInf).
Proof.
  intros Hb. unfold feature_result.
  destruct (_qcut _ col) as [[bins sp]|] eqn:Hq; simpl; [|done].
  destruct (qcut_returned (ctx_with_buckets b) b eq_refl Hb _ _ _ Hq)
    as (l & -> & _ & Hlen & _).
  rewrite (pad_loop_spec b _ _ _ eq_refl).
  rewrite decide_True by (rewrite length_map; lia).
  rewrite length_map. intros [= <-]. by exists bins, l.
Qed.

Lemma built_feature_buckets m x b rs :
  0 < b →
  vectorize (feature_result b) (columns x) = Returned rs →
  feature_buckets (self (built m x b rs))
  = Some (replicate (length (columns x)) (b + 1)).
Proof.
  intros Hb Hrs. unfold built. simpl. f_equal. symmetry.
  apply replicate_as_Forall. split.
  { by rewrite length_map, (vectorize_length _ _ _ Hrs). }
  apply Forall_fmap, Forall_forall. intros res [i Hi]%list_elem_of_lookup.
  destruct (Forall2_lookup_r _ _ _ _ _ (vectorize_Forall2 _ _ _ Hrs) Hi)
    as (col & _ & Hres).
  by destruct (feature_result_returned _ _ _ Hb Hres) as (? & ? & _ & _ & ->).
Qed.

End features.

(** X9: after a build with a positive bucket count that returned,
    [get_features] is the number of columns of [x], [get_order_map_shape]
    is [x.shape], [get_feature_buckets] is a list of one [buckets + 1] per
    column, [get_split_points] has one list per column, and
    [get_order_map] is an array that did not exist before the call (so it
    is not [x]). *)
Theorem X9_accessors_after_build m xl x b m' :
  0 < b →
  heap m !! xl = Some x →
  build_maps xl b m = (Returned (), m') →
  get_features m' = (Returned (Some (Z.of_nat (length (columns x)))), m') ∧
  get_order_map_shape m' = (Returned (shape x), m') ∧
  get_feature_buckets m'
    = (Returned (Some (replicate (length (columns x)) (b + 1))), m') ∧
  (∃ sps, get_split_points m' = (Returned (Some sps), m') ∧
          length sps = length (columns x)) ∧
  (∃ om, get_order_map m' = (Returned (Some om), m') ∧ heap m !! om = None).
Proof.
  intros Hb Hx Hbuild.
  destruct (build_maps_returned _ _ _ _ _ Hx Hbuild) as (rs & Hrs & ->).
  pose proof (built_feature_buckets m x b rs Hb Hrs) as Hfb.
  unfold get_features, get_order_map_shape, get_feature_buckets,
    get_split_points, get_order_map, bind, get_self, ret.
  rewrite Hfb. split_and!; try done.
  - eexists. split; [done|]. simpl.
    by rewrite length_map, (vectorize_length _ _ _ Hrs).
  - eexists. split; [done|]. apply not_elem_of_dom, is_fresh.
Qed.

Lemma X9_accessors_after_build_witness :
  get_features (after_build [10; 20] 4)
    = (Returned (Some (Z.of_nat (length (columns (one_column [10; 20]))))),
       after_build [10; 20] 4) ∧
  get_order_map_shape (after_build [10; 20] 4)
    = (Returned (shape (one_column [10; 20])), after_build [10; 20] 4) ∧
  get_feature_buckets (after_build [10; 20] 4)
    = (Returned (Some (replicate (length (columns (one_column [10; 20]))) (4 + 1))),
       after_build [10; 20] 4) ∧
  (∃ sps, get_split_points (after_build [10; 20] 4)
          = (Returned (Some sps), after_build [10; 20] 4) ∧
          length sps = length (columns (one_column [10; 20]))) ∧
  (∃ om, get_order_map (after_build [10; 20] 4)
         = (Returned (Some om), after_build [10; 20] 4) ∧
         heap (boot (one_column [10; 20])) !! om = None).
Proof.
  apply (X9_accessors_after_build (boot (one_column [10; 20])) 1%positive
           (one_column [10; 20]) 4 (after_build [10; 20] 4)).
  - lia.
  - reflexivity.
  - rewrite build_boot. vm_compute. reflexivity.
Defined.

(** X10: after a build with a positive bucket count that returned over
    an array of [n] columns, [get_feature_bucket_at] returns
    [buckets + 1] for every index from [-n] to [n - 1], the negative ones
    counting from the end. *)
Theorem X10_feature_bucket_at_valid_index m xl x b m' index :
  0 < b →
  heap m !! xl = Some x →
  build_maps xl b m = (Returned (), m') →
  - Z.of_nat (length (columns x)) <= index < Z.of_nat (length (columns x)) →
  get_feature_bucket_at index m' = (Returned (b + 1), m').
Proof.
  intros Hb Hx Hbuild Hidx.
  destruct (build_maps_returned _ _ _ _ _ Hx Hbuild) as (rs & Hrs & ->).
  unfold get_feature_bucket_at, bind, get_self.
  rewrite (built_feature_buckets m x b rs Hb Hrs).
  unfold py_index. rewrite length_replicate.
  destruct (decide (0 <= index)).
  - by rewrite lookup_replicate_2 by lia.
  - rewrite decide_True by lia. by rewrite lookup_replicate_2 by lia.
Qed.

Lemma X10_feature_bucket_at_valid_index_witness :
  get_feature_bucket_at (-1) (after_build [10; 20] 4)
  = (Returned (4 + 1), after_build [10; 20] 4).
Proof.
  apply (X10_feature_bucket_at_valid_index (boot (one_column [10; 20]))
           1%positive (one_column [10; 20]) 4 (after_build [10; 20] 4) (-1)).
  - lia.
  - reflexivity.
  - rewrite build_boot. vm_compute. reflexivity.
  - simpl. lia.
Defined.

(** X11: an array with no rows and at least one column makes
    [build_maps] raise AssertionError, whatever the bucket count, also a
    zero or negative one. *)
Theorem X11_no_rows_raises m xl x b :
  heap m !! xl = Some x →
  wf_ndarray x → nrows x = 0%nat → columns x ≠ [] →
  (build_maps xl b m).1 = Raised AssertionError.
Proof.
  intros Hx Hwf Hrows Hcols.
  pose proof (build_maps_spec m xl x b Hx) as Hspec.
  destruct (columns x) as [|col cols] eqn:Hc; [done|].
  assert (col = []) as ->.
  { unfold wf_ndarray in Hwf. rewrite Hc in Hwf.
    apply Forall_cons in Hwf as [Hlen _]. rewrite Hrows in Hlen.
    by destruct col. }
  simpl in Hspec. by destruct Hspec as (m' & -> & _).
Qed.

Lemma X11_no_rows_raises_witness :
  (build_maps 1%positive 4 (boot (NdArray 0 [[]; []]))).1 = Raised AssertionError.
Proof.
  apply (X11_no_rows_raises (boot (NdArray 0 [[]; []])) 1%positive
           (NdArray 0 [[]; []]) 4).
  - reflexivity.
  - by repeat constructor.
  - reflexivity.
  - discriminate.
Defined.

(** X12: a build that raises has stopped at the first column [f] whose
    cut raises, with the error of that cut, and leaves the context half
    built: the feature count and the bucket count are the new ones, the
    split-point and bucket-count lists hold the [f] entries of the columns
    before, the order map is the new array, with the shape of [x] and
    zeros from column [f] on, and [order_map_shape] is what it was before
    the call. *)
Theorem X12_raised_build_is_partial m xl x b e m' :
  heap m !! xl = Some x →
  build_maps xl b m = (Raised e, m') →
  ∃ (f : nat) col sps fbs a,
    columns x !! f = Some col ∧
    _qcut (ctx_with_buckets b) col = Raised e ∧
    (∀ (j : nat) colj, (j < f)%nat → columns x !! j = Some colj →
       ∃ r, _qcut (ctx_with_buckets b) colj = Returned r) ∧
    observe m'
      = Snapshot (Some a) (Some sps) (Some fbs)
          (Some (Z.of_nat (length (columns x)))) (Some b)
          (order_map_shape (self m)) ∧
    length sps = f ∧ length fbs = f ∧
    shape a = shape x ∧
    (∀ j : nat, (f <= j < length (columns x))%nat →
       columns a !! j = Some (replicate (nrows x) 0)).
Proof.
  intros Hx Hbuild.
  destruct (build_maps_raised _ _ _ _ _ _ Hx Hbuild)
    as (before & col & after & rs & Hcols & Hrs & Hraise & ->).
  pose proof (vectorize_length _ _ _ Hrs) as Hlen.
  assert (length (columns x) = (length rs + S (length after))%nat) as Hn.
  { rewrite Hcols, length_app, Hlen. done. }
  exists (length before), col. eexists _, _, _.
  split_and!.
  - rewrite Hcols. by rewrite list_lookup_middle.
  - by apply feature_result_raised.
  - intros j colj Hj Hcolj. rewrite Hcols, lookup_app_l in Hcolj by done.
    destruct (vectorize_lookup _ _ _ _ _ Hrs Hcolj) as (res & Hres & _).
    unfold feature_result in Hres.
    destruct (_qcut _ colj) as [r|]; [by exists r|done].
  - unfold observe, half_built. simpl. by rewrite lookup_insert_eq.
  - by rewrite length_map.
  - by rewrite length_map.
  - unfold shape. simpl.
    rewrite length_app, length_map, length_replicate. do 2 f_equal. lia.
  - intros j Hj. simpl.
    rewrite lookup_app_r by (rewrite length_map; lia).
    apply lookup_replicate. split; [done|]. rewrite length_map. lia.
Qed.

(** An array of four rows and three columns; with one bucket the cut of
    its second column raises. *)
Definition three_columns : ndarray :=
  NdArray 4 [[5; 5; 5; 5]; [1; 2; 3; 3]; [9; 9; 9; 9]].

Lemma X12_raised_build_is_partial_witness :
  ∃ (f : nat) col sps fbs a,
    columns three_columns !! f = Some col ∧
    _qcut (ctx_with_buckets 1) col = Raised IndexError ∧
    (∀ (j : nat) colj, (j < f)%nat → columns three_columns !! j = Some colj →
       ∃ r, _qcut (ctx_with_buckets 1) colj = Returned r) ∧
    observe (build_maps 1%positive 1 (boot three_columns)).2
      = Snapshot (Some a) (Some sps) (Some fbs)
          (Some (Z.of_nat (length (columns three_columns)))) (Some 1)
          (order_map_shape (self (boot three_columns))) ∧
    length sps = f ∧ length fbs = f ∧
    shape a = shape three_columns ∧
    (∀ j : nat, (f <= j < length (columns three_columns))%nat →
       columns a !! j = Some (replicate (nrows three_columns) 0)).
Proof.
  apply (X12_raised_build_is_partial (boot three_columns) 1%positive
           three_columns 1 IndexError).
  - reflexivity.
  - vm_compute. reflexivity.
Defined.

(** X13: [build_maps] changes no array that exists when it is called:
    whatever it is given and whether it returns or raises, every array of
    the heap is afterwards what it was before. *)
Theorem X13_no_existing_array_changes m xl b (l : positive) (a : ndarray) :
  heap m !! l = Some a →
  heap (build_maps xl b m).2 !! l = Some a.
Proof.
  intros Hl.
  assert (fresh (dom (heap m)) ≠ l) as Hne by (by eapply fresh_loc_ne).
  destruct (heap m !! xl) as [x|] eqn:Hx.
  - destruct (build_maps xl b m) as [[[]|e] m'] eqn:Hbuild; simpl.
    + destruct (build_maps_returned _ _ _ _ _ Hx Hbuild) as (rs & _ & ->).
      unfold built. simpl. by rewrite lookup_insert_ne.
    + destruct (build_maps_raised _ _ _ _ _ _ Hx Hbuild)
        as (? & ? & ? & rs & _ & _ & _ & ->).
      unfold half_built. simpl. by rewrite lookup_insert_ne.
  - unfold build_maps, bind, read_array. by rewrite Hx.
Qed.

Lemma X13_no_existing_array_changes_witness :
  heap (build_maps 1%positive 2
          (Machine {[ 1%positive := one_column [1; 2; 3; 3; 3; 3];
                      3%positive := one_column [7; 7] ]} __init__)).2
    !! 3%positive
  = Some (one_column [7; 7]).
Proof.
  apply (X13_no_existing_array_changes
           (Machine {[ 1%positive := one_column [1; 2; 3; 3; 3; 3];
                       3%positive := one_column [7; 7] ]} __init__)
           1%positive 2 3%positive (one_column [7; 7])).
  vm_compute. reflexivity.
Defined.

(** X14: a build with a positive bucket count over an array all of whose
    columns are non-empty and have at most [buckets] distinct values
    always returns. *)
Theorem X14_low_cardinality_build_returns m xl x b :
  0 < b →
  heap m !! xl = Some x →
  Forall (λ col, col ≠ [] ∧ Z.of_nat (length (distinct_values col)) <= b)
    (columns x) →
  (build_maps xl b m).1 = Returned ().
Proof.
  intros Hb Hx Hcols.
  pose proof (build_maps_spec m xl x b Hx) as Hspec.
  destruct (vectorize_returns (feature_result b) (columns x)) as [rs Hrs].
  { eapply Forall_impl; [done|]. intros col [Hne Hk]. simpl.
    destruct (qcut_low_cardinality (ctx_with_buckets b) b col eq_refl Hb Hne Hk)
      as (bins & Hq & _).
    unfold feature_result. rewrite Hq. simpl.
    destruct (pad_loop _ _ _). by eexists. }
  rewrite Hrs in Hspec. by rewrite Hspec.
Qed.

Lemma X14_low_cardinality_build_returns_witness :
  (build_maps 1%positive 3 (boot (NdArray 4 [[1; 2; 3; 3]; [0; 1; 0; 1]]))).1
  = Returned ().
Proof.
  apply (X14_low_cardinality_build_returns
           (boot (NdArray 4 [[1; 2; 3; 3]; [0; 1; 0; 1]])) 1%positive
           (NdArray 4 [[1; 2; 3; 3]; [0; 1; 0; 1]]) 3).
  - lia.
  - reflexivity.
  - repeat constructor; try discriminate; vm_compute; discriminate.
Defined.

(** ** The first bin of the walk is full *)

Section first_bin.

Variable b : Z.
Variable E : Z.









End first_bin.



Section int8_cells.

Lemma int8_range z : -128 <= int8 z <= 127.
Proof. unfold int8. pose proof (Z.mod_pos_bound (z + 128) 256). lia. Qed.

Lemma int8_congruent z : (int8 z - z) `mod` 256 = 0.
Proof.
  unfold int8. pose proof (Z.div_mod (z + 128) 256 ltac:(lia)) as Hdm.
  replace ((z + 128) `mod` 256 - 128 - z)
    with ((- ((z + 128) `div` 256)) * 256) by lia.
  apply Z_mod_mult.
Qed.

End int8_cells.

(** X16: whatever the positive bucket count, every cell of the order map
    of a build that returned is the [int8] image of the bin the cutter
    computed for that sample: it lies in [[-128, 127]], and differs from
    the bin, which lies in [[0, buckets]], by a multiple of 256. *)
Theorem X16_cells_wrap_modulo_256 m xl x b m' (f i : nat) col k :
  0 < b →
  heap m !! xl = Some x →
  build_maps xl b m = (Returned (), m') →
  columns x !! f = Some col →
  order_map_cell m' i f = Some k →
  -128 <= k <= 127 ∧
  ∃ bins sp r,
    _qcut (self m') col = Returned (bins, sp) ∧
    bins !! i = Some r ∧
    0 <= r <= b ∧
    (k - r) `mod` 256 = 0.
Proof.
  intros Hb Hx Hbuild Hcol Hcell.
  destruct (built_feature _ _ _ _ _ _ _ Hb Hx Hbuild Hcol)
    as (bins & l & Hq & _ & Hlen & _ & Hbins & _ & _ & Hcells).
  rewrite Hcells in Hcell.
  destruct (bins !! i) as [r|] eqn:Hr; [|done].
  injection Hcell as <-. split; [apply int8_range|].
  exists bins, (map float l), r. split_and!; [done..| | |apply int8_congruent].
  all: pose proof (Forall_lookup_1 _ _ _ _ (bins_range _ _ _ Hbins) Hr) as Hrange;
    simpl in Hrange; rewrite length_map in Hrange; lia.
Qed.

Lemma X16_cells_wrap_modulo_256_witness :
  -128 <= -128 <= 127 ∧
  ∃ bins sp r,
    _qcut (self (after_build ramp 129)) ramp = Returned (bins, sp) ∧
    bins !! 128%nat = Some r ∧
    0 <= r <= 129 ∧
    (-128 - r) `mod` 256 = 0.
Proof.
  apply (X16_cells_wrap_modulo_256 (boot (one_column ramp)) 1%positive
           (one_column ramp) 129 (after_build ramp 129) 0 128 ramp (-128)).
  - lia.
  - reflexivity.
  - rewrite build_boot. vm_compute. reflexivity.
  - reflexivity.
  - vm_compute. reflexivity.
Defined.

(** X17: the bucket count is not validated: with [buckets = 0] a build
    over an array whose first column is not empty raises
    ZeroDivisionError (line 42). *)
Theorem X17_zero_buckets_raises m xl x col cols :
  heap m !! xl = Some x →
  columns x = col :: cols → col ≠ [] →
  (build_maps xl 0 m).1 = Raised ZeroDivisionError.
Proof.
  intros Hx Hcols Hcol.
  pose proof (build_maps_spec m xl x 0 Hx) as Hspec.
  rewrite Hcols in Hspec. simpl in Hspec.
  assert (feature_result 0 col = Raised ZeroDivisionError) as Hraise.
  { apply feature_result_raised. unfold _qcut. simpl.
    rewrite decide_True; [done|].
    rewrite length_sorted_x. destruct col; simpl; [done|lia]. }
  rewrite Hraise in Hspec. simpl in Hspec.
  by destruct Hspec as (m' & -> & _).
Qed.

Lemma X17_zero_buckets_raises_witness :
  (build_maps 1%positive 0 (boot (one_column [10; 20]))).1
  = Raised ZeroDivisionError.
Proof.
  apply (X17_zero_buckets_raises (boot (one_column [10; 20])) 1%positive
           (one_column [10; 20]) [10; 20] []).
  - reflexivity.
  - reflexivity.
  - discriminate.
Defined.

(** ** Columns of 64-bit integers beyond [2^53]

    Where a property above asks for samples that are doubles, it cannot
    do without: the conversion of line 70 makes distinct large samples
    the same split point. *)

Section large_samples.

(** The column [0, 2^54 - 1, 2^54, 2^54 + 1] with four buckets: the three
    split points are all [2^54]; the sample [2^54] is stored in bucket 2,
    the left-closed rule puts it in bucket 3 only, and so does the search
    over the stored list. *)
Lemma large_samples_order_map :
  let col := [0; 18014398509481983; 18014398509481984; 18014398509481985] in
  let sp := [Finite 18014398509481984; Finite 18014398509481984;
             Finite 18014398509481984; PosInf; PosInf] in
  build_outcome col 4 = Returned () ∧
  stored_split_points (after_build col 4) 0 = Some sp ∧
  order_map_cell (after_build col 4) 2 0 = Some 2 ∧
  ¬ left_closed sp 18014398509481984 2 ∧
  left_closed sp 18014398509481984 3 ∧
  upper_bound_bin sp 18014398509481984 = Returned 3.
Proof.
  split_and!; [by vm_compute..| | |by vm_compute].
  - intros (lo & hi & _ & Hhi & _ & _ & Hlt).
    injection Hhi as <-. simpl in Hlt. lia.
  - exists (Point (Finite 18014398509481984)), (Point PosInf). by split_and!.
Qed.

(** The column [2^53 - 1, 2^53, 2^53 + 1] with three buckets: three
    distinct values, two equal split points, and the sample [2^53], of
    rank 1, in bucket 2. *)
Lemma large_samples_low_cardinality :
  let col := [9007199254740991; 9007199254740992; 9007199254740993] in
  distinct_values col = col ∧
  _qcut (ctx_with_buckets 3) col
    = Returned ([0; 2; 2], [Finite 9007199254740992; Finite 9007199254740992]).
Proof. split; by vm_compute. Qed.

(** The column [2^53, 2^53 + 1] with two buckets: the split point is the
    minimum of the column, and the sample holding the minimum is in
    bucket 1. *)
Lemma large_samples_minimum :
  _qcut (ctx_with_buckets 2) [9007199254740992; 9007199254740993]
  = Returned ([1; 1], [Finite 9007199254740992]).
Proof. by vm_compute. Qed.

(** The column [2^53 - 1, 2^53, 2^53 + 1, 2^53 + 2] with two buckets: the
    target bin size is 2, and one sample only is below the first split
    point. *)
Lemma large_samples_first_bucket :
  let col := [9007199254740991; 9007199254740992;
              9007199254740993; 9007199254740994] in
  ceil_div (Z.of_nat (length col)) 2 = Some 2 ∧
  _qcut (ctx_with_buckets 2) col
    = Returned ([0; 1; 1; 2],
                [Finite 9007199254740992; Finite 9007199254740994]) ∧
  length (filter (λ v, v < 9007199254740992) col) = 1%nat.
Proof. split_and!; by vm_compute. Qed.

End large_samples.
